(** * create-akos: the boilerplate materialisation pipeline of [lib/base.js]

    A shallow embedding of the [Command] class of [src/lib/base.js]
    (placeholder substitution, path mapping, question resolution,
    target-directory validation and the file walk), and the properties
    the specification states about them.

    Conventions of the embedding:
    - a JavaScript string is a [string]; its characters stand for the
      code units of the JavaScript string.  The pattern of
      [replaceTemplate] only inspects the ASCII characters backslash,
      braces, space and the word characters, every other unit is opaque
      to it;
    - a JavaScript object that is used as a dictionary (the variable
      scope) is a [gmap string string] of its own properties, all of
      them strings.  In [replaceTemplate] and in what is built on it,
      [scope.hasOwnProperty] is the method of [Object.prototype] (no
      variable is named [hasOwnProperty]); [replaceTemplate_call] is
      the call on any scope, where a variable of that name makes the
      lookup throw;
    - a thrown value is an error object with a [code] and a [message],
      or one of the values [null] and [undefined];
    - file contents are [list byte];
    - the collaborators that live outside [src/] (Node's [path] and [fs]
      modules, [require], [globby], [istextorbinary], [Buffer.toString],
      [inquirer]) are the fields of the class [Host]; what the command
      does to the outside (log lines, prompts, [mkdirp], file writes) is
      the trace of events of a run. *)

From Stdlib Require Import Ascii String Strings.Byte Bool Arith NArith Lia List.
From stdpp Require Import base option list gmap strings fin_maps.
From Stdlib Require DecimalString.

Local Open Scope string_scope.
Local Open Scope list_scope.

(* stdpp blocks the unfolding of [String.append]; the proofs below
   compute with it. *)
Local Arguments String.append !_ _ / : simpl nomatch.

(** ** Strings *)

Module Str.

(** [s.substring(n)]: the string without its first [n] characters. *)
Fixpoint drop (n : nat) (s : string) : string :=
  match n, s with
  | 0, _ => s
  | S n', String _ s' => drop n' s'
  | S _, "" => ""
  end.

(** The first [n] characters of [s]. *)
Fixpoint take (n : nat) (s : string) : string :=
  match n, s with
  | 0, _ => ""
  | S n', String a s' => String a (take n' s')
  | S _, "" => ""
  end.

(** [n] spaces. *)
Fixpoint spaces (n : nat) : string :=
  match n with
  | 0 => ""
  | S n' => String " " (spaces n')
  end.

(** The longest prefix of [s] whose characters satisfy [p], and the rest. *)
Fixpoint span (p : ascii → bool) (s : string) : string * string :=
  match s with
  | String a s' =>
      if p a then let '(t, r) := span p s' in (String a t, r) else ("", s)
  | "" => ("", "")
  end.

Fixpoint forallb (p : ascii → bool) (s : string) : bool :=
  match s with
  | String a s' => p a && forallb p s'
  | "" => true
  end.

(** [s.startsWith(t)]. *)
Fixpoint starts_with (t s : string) : bool :=
  match t, s with
  | "", _ => true
  | String a t', String b s' => Ascii.eqb a b && starts_with t' s'
  | String _ _, "" => false
  end.

(** [s.includes(t)]. *)
Fixpoint includes (t s : string) : bool :=
  starts_with t s ||
  match s with
  | String _ s' => includes t s'
  | "" => false
  end.

(** The last character of [s], if any. *)
Fixpoint last (s : string) : option ascii :=
  match s with
  | "" => None
  | String a "" => Some a
  | String _ s' => last s'
  end.

End Str.

(** ** Character classes of the placeholder pattern *)

Definition is_backslash (a : ascii) : bool := Ascii.eqb a "\".
Definition is_open (a : ascii) : bool := Ascii.eqb a "{".
Definition is_close (a : ascii) : bool := Ascii.eqb a "}".
Definition is_space (a : ascii) : bool := Ascii.eqb a " ".

(** [\w]: [A-Za-z0-9_]. *)
Definition is_word (a : ascii) : bool :=
  let n := N_of_ascii a in
  ((48 <=? n) && (n <=? 57) || (65 <=? n) && (n <=? 90)
   || (97 <=? n) && (n <=? 122) || (n =? 95))%N.

(** ** The regular expression [/(\\)?{{ *(\w+) *}}/g]

    The pattern is a sequence of the four kinds of node it uses; [exec]
    is the backtracking matcher of the language: every quantifier is
    greedy and gives characters back when what follows it fails. *)

Inductive node :=
| One (p : ascii → bool)                (* one character of a class *)
| Opt (g : nat) (p : ascii → bool)      (* [(p)?], capture group [g] *)
| Star (p : ascii → bool)               (* [p*] *)
| PlusG (g : nat) (p : ascii → bool).   (* [(p+)], capture group [g] *)

(** Greedy repetition of [p] in front of the continuation [k]: take one
    more character when possible, fall back to stopping here when the
    longer attempt fails.  [taken] is the text consumed so far. *)
Fixpoint greedy {R} (p : ascii → bool) (k : string → string → option R)
    (taken s : string) : option R :=
  match s with
  | String a s' =>
      if p a then
        match greedy p k (taken +:+ String a "") s' with
        | Some r => Some r
        | None => k taken s
        end
      else k taken s
  | "" => k taken s
  end.

Fixpoint exec (ns : list node) (caps : gmap nat string) (s : string)
    : option (gmap nat string * string) :=
  match ns with
  | [] => Some (caps, s)
  | One p :: ns' =>
      match s with
      | String a s' => if p a then exec ns' caps s' else None
      | "" => None
      end
  | Opt g p :: ns' =>
      match s with
      | String a s' =>
          if p a then
            match exec ns' (<[g := String a ""]> caps) s' with
            | Some r => Some r
            | None => exec ns' caps s
            end
          else exec ns' caps s
      | "" => exec ns' caps s
      end
  | Star p :: ns' => greedy p (λ _ rest, exec ns' caps rest) "" s
  | PlusG g p :: ns' =>
      match s with
      | String a s' =>
          if p a then
            greedy p (λ taken rest, exec ns' (<[g := taken]> caps) rest)
              (String a "") s'
          else None
      | "" => None
      end
  end.

(** [(\\)?{{ *(\w+) *}}] *)
Definition placeholder_re : list node :=
  [ Opt 1 is_backslash; One is_open; One is_open; Star is_space;
    PlusG 2 is_word; Star is_space; One is_close; One is_close ].

(** One match attempt at the head of [s]: the matched text ([block]), the
    two groups ([skip] is absent when the optional group did not take
    part) and the text after the match. *)
Definition regexp_exec (s : string)
    : option (string * option string * string * string) :=
  match exec placeholder_re ∅ s with
  | Some (caps, rest) =>
      Some (Str.take (String.length s - String.length rest) s,
            caps !! 1, default "" (caps !! 2), rest)
  | None => None
  end.

(** ** [replaceTemplate] ([src/lib/base.js], lines 435-442) *)

(** The callback of [replace]: [(block, skip, key) => ...]. *)
Definition replacer (scope : gmap string string)
    (block : string) (skip : option string) (key : string) : string :=
  match skip with
  | Some (String _ _ as sk) => Str.drop (String.length sk) block
  | _ =>
      match scope !! key with
      | Some v => v
      | None => block
      end
  end.

(** [String.prototype.replace] with a global pattern: attempts start at
    every position from left to right, a match is replaced by the
    callback's result and the scan resumes after it, an unmatched
    character is copied.  The pattern matches no empty text, so every
    step consumes a character and [fuel] bounds the number of steps. *)
Fixpoint replace_from (fuel : nat) (scope : gmap string string) (s : string)
    : string :=
  match fuel with
  | 0 => ""
  | S fuel' =>
      match regexp_exec s with
      | Some (block, skip, key, rest) =>
          replacer scope block skip key +:+ replace_from fuel' scope rest
      | None =>
          match s with
          | String a s' => String a (replace_from fuel' scope s')
          | "" => ""
          end
      end
  end.

Definition replaceTemplate (content : string) (scope : gmap string string)
    : string :=
  replace_from (String.length content) scope content.

(** *** The scan, read off the pattern

    The classes that follow one another in the pattern are disjoint, so
    a quantifier that gives a character back can never make what follows
    succeed: the greedy attempt alone decides.  [token] and [scan] are
    that attempt written directly; [regexp_exec_scan] below proves that
    they compute what the backtracking matcher computes. *)

(** [{{ *(\w+) *}}] at the head of [s]: the matched text, the key and
    the text after it. *)
Definition token (s : string) : option (string * string * string) :=
  match s with
  | String a (String b s1) =>
      if is_open a && is_open b then
        let '(sp1, s2) := Str.span is_space s1 in
        let '(key, s3) := Str.span is_word s2 in
        match key with
        | "" => None
        | String _ _ =>
            let '(sp2, s4) := Str.span is_space s3 in
            match s4 with
            | String c (String d rest) =>
                if is_close c && is_close d
                then Some ("{{" +:+ sp1 +:+ key +:+ sp2 +:+ "}}", key, rest)
                else None
            | _ => None
            end
        end
      else None
  | _ => None
  end.

(** A match attempt at the head of [s]: whether the escape marker was
    taken, the placeholder, its key and the text after the match. *)
Definition scan (s : string) : option (bool * string * string * string) :=
  match s with
  | String a s1 =>
      if is_backslash a then
        match token s1 with
        | Some (tok, key, rest) => Some (true, tok, key, rest)
        | None => None
        end
      else
        match token s with
        | Some (tok, key, rest) => Some (false, tok, key, rest)
        | None => None
        end
  | "" => None
  end.

(** The placeholder with key [key], [n] spaces before and [m] after it. *)
Definition placeholder (n : nat) (key : string) (m : nat) : string :=
  "{{" +:+ Str.spaces n +:+ key +:+ Str.spaces m +:+ "}}".

(** A key is a non-empty run of word characters. *)
Definition is_key (key : string) : bool :=
  match key with
  | "" => false
  | String _ _ => Str.forallb is_word key
  end.


(** What the callback returns for a match found by the scan. *)
Definition replacement (scope : gmap string string) (esc : bool)
    (tok key : string) : string :=
  if esc then tok
  else match scope !! key with
       | Some v => v
       | None => tok
       end.

(** [barrier rest]: the first character of [rest] can continue no
    unfinished attempt, and completes no pair of opening braces. *)
Definition barrier (rest : string) : Prop :=
  token (String "{" rest) = None ∧
  match rest with
  | String b _ => is_space b = false ∧ is_word b = false ∧ is_close b = false
  | "" => True
  end.

(** ** Path mapping ([fileMapping], lines 29-36, and its use in
    [processFiles], line 214) *)

(** The values that [this.fileMapping[file]] can evaluate to: a string of
    the table, or a member that the object literal inherits from
    [Object.prototype] (a built-in function, or the prototype object
    itself for [__proto__]). *)
Inductive jsval :=
| VString (s : string)
| VNative (name : string)
| VObjectPrototype.

(** [v.toString()], as Node prints built-in functions and plain objects. *)
Definition toString (v : jsval) : string :=
  match v with
  | VString s => s
  | VNative name => "function " +:+ name +:+ "() { [native code] }"
  | VObjectPrototype => "[object Object]"
  end.

Definition truthy (v : jsval) : bool :=
  match v with
  | VString "" => false
  | _ => true
  end.

(** The own properties of [this.fileMapping]. *)
Definition fileMapping_entries : list (string * string) :=
  [ ("gitignore", ".gitignore");
    ("_gitignore", ".gitignore");
    ("_.gitignore", ".gitignore");
    ("_package.json", "package.json");
    ("_.eslintignore", ".eslintignore");
    ("_.npmignore", ".npmignore") ].

Definition fileMapping : gmap string string := list_to_map fileMapping_entries.

(** The properties of [Object.prototype], which a bracket lookup on an
    object literal reaches when the name is not an own property. *)
Definition Object_prototype_entries : list (string * jsval) :=
  [ ("constructor", VNative "Object");
    ("__defineGetter__", VNative "__defineGetter__");
    ("__defineSetter__", VNative "__defineSetter__");
    ("hasOwnProperty", VNative "hasOwnProperty");
    ("__lookupGetter__", VNative "__lookupGetter__");
    ("__lookupSetter__", VNative "__lookupSetter__");
    ("isPrototypeOf", VNative "isPrototypeOf");
    ("propertyIsEnumerable", VNative "propertyIsEnumerable");
    ("toString", VNative "toString");
    ("valueOf", VNative "valueOf");
    ("__proto__", VObjectPrototype);
    ("toLocaleString", VNative "toLocaleString") ].

Definition Object_prototype : gmap string jsval :=
  list_to_map Object_prototype_entries.

(** [this.fileMapping[file]] *)
Definition fileMapping_get (file : string) : option jsval :=
  match fileMapping !! file with
  | Some s => Some (VString s)
  | None => Object_prototype !! file
  end.

(** [this.fileMapping[file] || file], as the string that
    [replaceTemplate] makes of it with [content.toString()]. *)
Definition mapPath (file : string) : string :=
  toString
    match fileMapping_get file with
    | Some v => if truthy v then v else VString file
    | None => VString file
    end.

(** The destination of [file] relative to the target directory. *)
Definition destination (file : string) (locals : gmap string string) : string :=
  replaceTemplate (mapPath file) locals.

(** The names of the rename table, and the inherited names. *)
Definition aliases : list string := fileMapping_entries.*1.
Definition inherited : list string := Object_prototype_entries.*1.

(** ** Exceptions and the trace of a run *)

(** A thrown value: an error with its [code] and [message], the
    [TypeError] of reading a property of [undefined] or [null], or one
    of the values [null] and [undefined], thrown as it is.  A thrown
    primitive other than these two reads like an error without [code]
    whose message prints as [undefined]. *)
Inductive js_error :=
| Thrown (code : option string) (message : string)
| TypeError_read (property : string)
| ThrownNullish.

Inductive outcome (A : Type) :=
| Ok (a : A)
| Throw (e : js_error).
Arguments Ok {A} a.
Arguments Throw {A} e.

Global Instance outcome_ret : MRet outcome := λ A a, Ok a.
Global Instance outcome_bind : MBind outcome := λ A B f o,
  match o with
  | Ok a => f a
  | Throw e => Throw e
  end.
Global Instance outcome_fmap : FMap outcome := λ A B f o,
  match o with
  | Ok a => Ok (f a)
  | Throw e => Throw e
  end.

(** [err.code]: reading a property of [null] or [undefined] throws. *)
Definition err_code (e : js_error) : outcome (option string) :=
  match e with
  | Thrown code _ => Ok code
  | TypeError_read _ => Ok None
  | ThrownNullish => Throw (TypeError_read "code")
  end.

(** [v || ''] for a value that is a string or [undefined]. *)
Definition or_empty (v : option string) : string := default "" v.

(** *** [replaceTemplate] on any scope

    [replacer] and [replaceTemplate] above are the callback and the call
    on a scope for which [scope.hasOwnProperty] is the method that the
    scope inherits from [Object.prototype].  A scope with an own
    property named [hasOwnProperty] shadows the method: the property is
    found first, its value is a string, and calling it throws.
    [replacer_call] and [replaceTemplate_call] are the callback and the
    call on any scope. *)

(** [scope.hasOwnProperty(key)] *)
Definition hasOwnProperty (scope : gmap string string) (key : string)
    : outcome bool :=
  match scope !! "hasOwnProperty" with
  | Some _ => Throw (Thrown None "scope.hasOwnProperty is not a function")
  | None => Ok (bool_decide (is_Some (scope !! key)))
  end.

Definition replacer_call (scope : gmap string string)
    (block : string) (skip : option string) (key : string) : outcome string :=
  match skip with
  | Some (String _ _ as sk) => Ok (Str.drop (String.length sk) block)
  | _ =>
      own ← hasOwnProperty scope key;
      mret (if (own : bool) then default block (scope !! key) else block)
  end.

(** The callback runs on the matches from left to right; the first call
    that throws ends the replacement. *)
Fixpoint replace_call (fuel : nat) (scope : gmap string string) (s : string)
    : outcome string :=
  match fuel with
  | 0 => Ok ""
  | S fuel' =>
      match regexp_exec s with
      | Some (block, skip, key, rest) =>
          r ← replacer_call scope block skip key;
          t ← replace_call fuel' scope rest;
          mret (r +:+ t)
      | None =>
          match s with
          | String a s' => String a <$> replace_call fuel' scope s'
          | "" => Ok ""
          end
      end
  end.

Definition replaceTemplate_call (content : string) (scope : gmap string string)
    : outcome string :=
  replace_call (String.length content) scope content.

(** *** Questions *)

(** The [default] of a question: none, a string, or a function of the
    scope built so far.  The function reads the own properties of the
    scope and leaves the scope as it is; like a [filter], it returns a
    string or nothing, or throws. *)
Inductive default_field :=
| NoDefault
| Literal (s : string)
| Derived (f : gmap string string → outcome (option string)).

Record question := {
  q_type : option string;
  q_description : option string;
  q_desc : option string;
  q_default : default_field;
  q_filter : option (jsval → outcome (option string));
  q_choices : option (list string)
}.

(** A questions object: its entries, with distinct keys, in the order of
    [Object.keys].  Going through [keys] and reading [questions[key]]
    visits these entries one after the other. *)
Definition questions := list (string * question).

Fixpoint question_of (key : string) (qs : questions) : option question :=
  match qs with
  | [] => None
  | (k, q) :: qs' => if decide (k = key) then Some q else question_of key qs'
  end.

(** What [module.exports] of the template is once it is an object: a
    questions object, or [null]/[undefined]. *)
Inductive exported :=
| Mapping (qs : questions)
| Nullish.

(** What [require(templateDir)] does. *)
Inductive question_source :=
| RequireThrows (e : js_error)
| Exports (v : exported)
| ExportsFunction (call : outcome exported).
    (* [call] is the outcome of [questions(this)] *)

(** One entry of the array given to [inquirer.prompt]. *)
Record prompt_question := {
  pq_type : string;
  pq_name : string;
  pq_message : option string;
  pq_default : default_field;
  pq_filter : option (jsval → outcome (option string));
  pq_choices : option (list string)
}.

(** *** Events *)

Inductive data :=
| Text (s : string)          (* a string, written as UTF-8 *)
| Bytes (b : list byte).     (* a buffer, written as it is *)

Inductive reject :=
| ExistsAsFile (dir : string)
| NotEmpty (dir : string) (files : list string).

Inductive log_line :=
| LoadTrouble (e : js_error)
| Collecting
| UseDefault (result : gmap string string)
| WriteTo (to : string)
| Override (dir : string)
| Invalid (why : reject)
| TargetDir (dir : string).

Inductive event :=
| EvLog (l : log_line)
| EvPromptQuestions (qs : list prompt_question)
| EvPromptDir (dflt : string)
| EvMkdirp (dir : string)
| EvWrite (to : string) (d : data).

Definition is_prompt (e : event) : bool :=
  match e with
  | EvPromptQuestions _ | EvPromptDir _ => true
  | _ => false
  end.

(** A computation: the events it produced and how it ended. *)
Definition run (A : Type) : Type := list event * outcome A.

Global Instance run_ret : MRet run := λ A a, ([], Ok a).
Global Instance run_bind : MBind run := λ A B f m,
  match m with
  | (t, Ok a) => let '(t', r) := f a in (t ++ t', r)
  | (t, Throw e) => (t, Throw e)
  end.

Definition emit (e : event) : run unit := ([e], Ok tt).
Definition lift {A} (o : outcome A) : run A := ([], o).

(** ** The collaborators of the command *)

Class Host := {
  (* Node's [path] *)
  path_join : string → string → string;
  path_dirname : string → string;
  path_basename : string → string;
  path_resolve : string → string → string;
  (* [require(templateDir)] *)
  require_questions : string → question_source;
  (* [glob.sync('**/*', { cwd, dot: true })] *)
  glob_sync : string → list string;
  (* [fs.readFileSync(path)] *)
  readFileSync : string → list byte;
  (* [isTextOrBinary.isTextSync(path, buffer)] *)
  isTextSync : string → list byte → bool;
  (* [buffer.toString('utf8')] *)
  toString_utf8 : list byte → string;
  (* the answers that [inquirer.prompt(questions)] resolves to *)
  inquirer_prompt : list prompt_question → gmap string string
}.

(** [this.argv] and [this.cwd]. *)
Record argv := {
  argv_positional : list string;   (* [argv._] *)
  argv_dir : option string;
  argv_force : bool;
  argv_silent : bool;
  cwd : string
}.

(** The exception that loading the question source ends with, if any:
    thrown by [require], thrown by the exported function, or the
    [TypeError] of reading [name] on an export that is [null] or
    [undefined]. *)
Definition load_error (source : question_source) : option js_error :=
  match source with
  | RequireThrows e | ExportsFunction (Throw e) => Some e
  | Exports Nullish | ExportsFunction (Ok Nullish) =>
      Some (TypeError_read "name")
  | Exports (Mapping _) | ExportsFunction (Ok (Mapping _)) => None
  end.

(** ** [askForVariable] (lines 149-200) *)

(** [s.replace(/^egg-/, '')] *)
Definition strip_egg (s : string) : string :=
  if Str.starts_with "egg-" s then Str.drop 4 s else s.

(** [!question.default] *)
Definition no_default (q : question) : bool :=
  match q_default q with
  | NoDefault | Literal "" => true
  | Literal (String _ _) | Derived _ => false
  end.

Definition with_default (d : default_field) (q : question) : question :=
  {| q_type := q_type q; q_description := q_description q; q_desc := q_desc q;
     q_default := d; q_filter := q_filter q; q_choices := q_choices q |}.

(** [questions[key].default = d] *)
Definition set_default (key : string) (d : default_field) (qs : questions)
    : questions :=
  (λ kq, if decide (kq.1 = key) then (kq.1, with_default d kq.2) else kq) <$> qs.

Section Command.
Context `{Host}.

(** The body of the [try]: load the questions, call them when they are a
    function, and give the question [name] the target directory's name
    as its default when it has none. *)
Definition load_questions (targetDir templateDir : string) : outcome questions :=
  exported ←
    match require_questions templateDir with
    | RequireThrows e => Throw e
    | Exports v => Ok v
    | ExportsFunction call => call
    end;
  match exported with
  | Nullish => Throw (TypeError_read "name")
  | Mapping qs =>
      match question_of "name" qs with
      | Some q =>
          if no_default q
          then Ok (set_default "name"
                     (Literal (strip_egg (path_basename targetDir))) qs)
          else Ok qs
      | None => Ok qs
      end
  end.

(** [result[key] = v] for a string [v]: the own property [key] of
    [result] is [v] afterwards.  The key [__proto__] is not a property
    of its own but the accessor that every object inherits from
    [Object.prototype]; its setter ignores a value that is not an
    object, so that nothing is stored. *)
Definition assign (key v : string) (result : gmap string string)
    : gmap string string :=
  if decide (key = "__proto__") then result else <[key := v]> result.

(** [result[key]], read after an assignment to it: the string stored,
    and [Object.prototype] for the key [__proto__]. *)
Definition get (key : string) (result : gmap string string) : jsval :=
  if decide (key = "__proto__") then VObjectPrototype
  else VString (or_empty (result !! key)).

(** The callback of [keys.reduce] in silent mode, on the entry
    [key], [questions[key]]. *)
Definition silent_step (result : gmap string string) (kq : string * question)
    : outcome (gmap string string) :=
  let '(key, q) := kq in
  result ←
    match q_default q with
    | Derived defaultFn =>
        v ← defaultFn result; mret (assign key (or_empty v) result)
    | Literal s => mret (assign key (or_empty (Some s)) result)
    | NoDefault => mret (assign key (or_empty None) result)
    end;
  match q_filter q with
  | Some filterFn =>
      v ← filterFn (get key result);
      mret (assign key (or_empty v) result)
  | None => mret result
  end.

Fixpoint reduce {A B} (f : A → B → outcome A) (acc : A) (l : list B)
    : outcome A :=
  match l with
  | [] => Ok acc
  | x :: l' => acc' ← f acc x; reduce f acc' l'
  end.

(** The question given to [inquirer] for the entry [key], [question]. *)
Definition prompt_of (kq : string * question) : prompt_question :=
  let '(key, question) := kq in
  {| pq_type := match q_type question with
                | Some (String _ _ as t) => t
                | _ => "input"
                end;
     pq_name := key;
     pq_message := match q_description question with
                   | Some (String _ _ as d) => Some d
                   | _ => q_desc question
                   end;
     pq_default := q_default question;
     pq_filter := q_filter question;
     pq_choices := q_choices question |}.

Definition askForVariable (a : argv) (targetDir templateDir : string)
    : run (gmap string string) :=
  match load_questions targetDir templateDir with
  | Throw err =>
      code ← lift (err_code err);
      (if decide (code = Some "MODULE_NOT_FOUND")
       then mret tt
       else emit (EvLog (LoadTrouble err)));;
      mret ∅
  | Ok qs =>
      emit (EvLog Collecting);;
      if argv_silent a then
        result ← lift (reduce silent_step ∅ qs);
        emit (EvLog (UseDefault result));;
        mret result
      else
        let ps := prompt_of <$> qs in
        emit (EvPromptQuestions ps);;
        mret (inquirer_prompt ps)
  end.

(** ** [processFiles] (lines 208-227) *)

(** The body of [files.forEach]. *)
Definition processFile (targetDir src : string) (locals : gmap string string)
    (file : string) : run unit :=
  let from := path_join src file in
  let to := path_join targetDir (replaceTemplate (mapPath file) locals) in
  let content := readFileSync from in
  emit (EvLog (WriteTo to));;
  let result :=
    if isTextSync from content
    then Text (replaceTemplate (toString_utf8 content) locals)
    else Bytes content in
  emit (EvMkdirp (path_dirname to));;
  emit (EvWrite to result).

Fixpoint forEach {A} (f : A → run unit) (l : list A) : run unit :=
  match l with
  | [] => mret tt
  | x :: l' => f x;; forEach f l'
  end.

Definition processFiles (a : argv) (targetDir templateDir : string)
    : run (list string) :=
  let src := path_join templateDir "boilerplate" in
  locals ← askForVariable a targetDir templateDir;
  let files := glob_sync src in
  forEach (processFile targetDir src locals) files;;
  mret files.

(** What [processFile] writes for [file]: the path and the data. *)
Definition target_of (targetDir : string) (locals : gmap string string)
    (file : string) : string :=
  path_join targetDir (destination file locals).

Definition output_of (src : string) (locals : gmap string string)
    (file : string) : data :=
  let content := readFileSync (path_join src file) in
  if isTextSync (path_join src file) content
  then Text (replaceTemplate (toString_utf8 content) locals)
  else Bytes content.

End Command.

(** The files that a trace writes, in order, and the tree they leave:
    [fs.writeFileSync] creates or overwrites the file at its path. *)
Definition writes (t : list event) : list (string * data) :=
  omap (λ e, match e with EvWrite to d => Some (to, d) | _ => None end) t.

Definition tree_after (tree : gmap string data) (t : list event)
    : gmap string data :=
  foldl (λ tr w, <[w.1 := w.2]> tr) tree (writes t).

(** ** [getTargetDirectory] (lines 315-360) *)

(** What [fs.existsSync], [fs.statSync] and [fs.readdirSync] see at a
    path; a path that the map does not hold does not exist.  The map
    answers for the paths that [validate] is called with: [mkdirp.sync]
    is recorded at the path it is called with, as an empty directory;
    the missing ancestors that it creates on the way and the new entry
    in the listing of the parent are not tracked, and the calls are
    taken to return (creating a directory below a regular file
    fails). *)
Inductive stat :=
| IsFile
| IsDirectory (names : list string).

Inductive verdict :=
| Accept                  (* [true] *)
| Reject (why : reject).  (* the message *)

(** [name[0] !== '.'] *)
Definition visible (name : string) : bool :=
  match name with
  | String c _ => negb (Ascii.eqb c ".")
  | "" => true
  end.

(** The closure [validate], with the [force] it captures. *)
Definition validate (force : bool) (dir : string) (disk : gmap string stat)
    : verdict * gmap string stat * list event :=
  match disk !! dir with
  | None => (Accept, <[dir := IsDirectory []]> disk, [EvMkdirp dir])
  | Some IsFile => (Reject (ExistsAsFile dir), disk, [])
  | Some (IsDirectory names) =>
      let files := List.filter visible names in
      if (0 <? List.length files)%nat then
        if force
        then (Accept, disk, [EvLog (Override dir)])
        else (Reject (NotEmpty dir files), disk, [])
      else (Accept, disk, [])
  end.

(** [a || b || ''] on the two places the directory can come from. *)
Definition first_truthy (a b : option string) : string :=
  match a with
  | Some (String _ _ as s) => s
  | _ => or_empty b
  end.

(** [dir || '.'] *)
Definition or_dot (dir : string) : string :=
  match dir with
  | "" => "."
  | String _ _ => dir
  end.

Section TargetDirectory.
Context `{Host}.

(** The prompt for another directory: each line the user enters is
    replaced by the default when empty, resolved by [filter] and checked
    by [validate]; the prompt ends with the first line that passes.
    [typed] are the lines entered; when none passes the prompt is still
    open and there is no answer. *)
Fixpoint prompt_dir (force : bool) (cwd dflt : string) (typed : list string)
    (disk : gmap string stat) : option string * gmap string stat * list event :=
  match typed with
  | [] => (None, disk, [])
  | line :: typed' =>
      let input := match line with "" => dflt | _ => line end in
      let dir := path_resolve cwd input in
      let '(v, disk', t) := validate force dir disk in
      match v with
      | Accept => (Some dir, disk', t)
      | Reject _ =>
          let '(answer, disk'', t') := prompt_dir force cwd dflt typed' disk' in
          (answer, disk'', t ++ t')
      end
  end.

Definition getTargetDirectory (a : argv) (typed : list string)
    (disk : gmap string stat) : option string * gmap string stat * list event :=
  let dir := first_truthy (head (argv_positional a)) (argv_dir a) in
  let targetDir := path_resolve (cwd a) dir in
  let force := argv_force a in
  let '(isValid, disk1, t1) := validate force targetDir disk in
  match isValid with
  | Accept => (Some targetDir, disk1, t1 ++ [EvLog (TargetDir targetDir)])
  | Reject why =>
      let dflt := or_dot dir in
      let '(answer, disk2, t2) := prompt_dir force (cwd a) dflt typed disk1 in
      (answer, disk2,
       t1 ++ [EvLog (Invalid why); EvPromptDir dflt] ++ t2 ++
       match answer with
       | Some targetDir' => [EvLog (TargetDir targetDir')]
       | None => []
       end)
  end.

(** The directory named on the command line, resolved. *)
Definition requested (a : argv) : string :=
  path_resolve (cwd a) (first_truthy (head (argv_positional a)) (argv_dir a)).

(** The default that the prompt for another directory proposes. *)
Definition proposed (a : argv) : string :=
  or_dot (first_truthy (head (argv_positional a)) (argv_dir a)).

End TargetDirectory.

(** ** The resolution of silent mode in the specification's words

    For each question in order: the value is the default (called on the
    scope built so far when it is a function, the literal otherwise, the
    empty string when there is none), then the filter applied to it when
    there is one; the scope gains the value under the question's name. *)

Definition silent_value (scope : gmap string string) (q : question)
    : outcome string :=
  v ← match q_default q with
      | Derived f => or_empty <$> f scope
      | Literal s => Ok s
      | NoDefault => Ok ""
      end;
  match q_filter q with
  | Some g => or_empty <$> g (VString v)
  | None => Ok v
  end.

Fixpoint silent_resolve (scope : gmap string string) (qs : questions)
    : outcome (gmap string string) :=
  match qs with
  | [] => Ok scope
  | (key, q) :: qs' =>
      v ← silent_value scope q;
      silent_resolve (<[key := v]> scope) qs'
  end.

(** ** A concrete installation

    Paths are joined with [/]; the template tree is a list of absolute
    paths with their bytes; a buffer is text when it holds no zero byte
    and is decoded byte by byte. *)

Module Demo.

Definition join (a b : string) : string := a +:+ "/" +:+ b.

Fixpoint basename (s : string) : string :=
  match s with
  | "" => ""
  | String _ s' => if Str.includes "/" s then basename s' else s
  end.

Fixpoint dirname (s : string) : string :=
  match s with
  | "" => ""
  | String a s' => if Str.includes "/" s' then String a (dirname s') else ""
  end.

Definition resolve (cwd dir : string) : string :=
  match dir with
  | "" => cwd
  | _ => join cwd dir
  end.

Definition under (cwd : string) (entry : string * list byte) : option string :=
  if Str.starts_with (cwd +:+ "/") entry.1
  then Some (Str.drop (String.length cwd + 1) entry.1)
  else None.

Fixpoint read (tree : list (string * list byte)) (path : string) : list byte :=
  match tree with
  | [] => []
  | (p, bytes) :: tree' => if String.eqb p path then bytes else read tree' path
  end.

Definition no_zero (content : list byte) : bool :=
  List.forallb (λ b, negb (Byte.eqb b x00)) content.

Definition host (source : question_source) (tree : list (string * list byte))
    (answers : gmap string string) : Host :=
  {| path_join := join;
     path_dirname := dirname;
     path_basename := basename;
     path_resolve := resolve;
     require_questions := λ _, source;
     glob_sync := λ cwd, omap (under cwd) tree;
     readFileSync := read tree;
     isTextSync := λ _ content, no_zero content;
     toString_utf8 := string_of_list_byte;
     inquirer_prompt := λ _, answers |}.

Definition ask (dflt : default_field) : question :=
  {| q_type := None; q_description := None; q_desc := None;
     q_default := dflt; q_filter := None; q_choices := None |}.

Definition silently : argv :=
  {| argv_positional := ["app"]; argv_dir := None; argv_force := false;
     argv_silent := true; cwd := "/home" |}.

Definition png : list byte := [x89; x50; x4e; x47; x0d; x0a; x1a; x0a; x00; x00].

(** The template of the specification's example. *)
Definition hello : Host :=
  host (Exports (Mapping [("name", ask (Literal "World"))]))
    [ ("/tpl/boilerplate/one.txt", list_byte_of_string "Hello {{ name }}");
      ("/tpl/boilerplate/logo.png", png) ]
    ∅.

(** A template that ships the ignore file under two of its aliases. *)
Definition twice : Host :=
  host (RequireThrows (Thrown (Some "MODULE_NOT_FOUND") "Cannot find module"))
    [ ("/tpl/boilerplate/gitignore", list_byte_of_string "node_modules");
      ("/tpl/boilerplate/_gitignore", list_byte_of_string "dist") ]
    ∅.

(** The questions of the specification's example: [a] with the default
    [base], [b] with the default [(scope) => scope.a + "x"]. *)
Definition forward : Host :=
  host
    (Exports (Mapping
       [ ("a", ask (Literal "base"));
         ("b", ask (Derived (λ scope,
                  Ok (Some (default "undefined" (scope !! "a") +:+ "x"))))) ]))
    [] ∅.

(** A template whose question module fails to load. *)
Definition broken : Host :=
  host (RequireThrows (Thrown None "Unexpected token")) [] ∅.

(** A disk with a file, an empty directory, a directory with hidden
    entries only and a directory with a visible entry. *)
Definition disk : gmap string stat :=
  {[ "/home/notes" := IsFile;
     "/home/empty" := IsDirectory [];
     "/home/fresh" := IsDirectory [".git"];
     "/home/app" := IsDirectory [".git"; "package.json"] ]}.

Definition argv_of (dir : string) (force : bool) : argv :=
  {| argv_positional := [dir]; argv_dir := None; argv_force := force;
     argv_silent := false; cwd := "/home" |}.

End Demo.

(** * The rest of the command

    The functions of [src/lib/base.js] below are not the subject of a
    claim; they are embedded like the others. *)

(** ** The events of one file of the walk *)

(** The three events of [processFile] on [file]. *)
Definition steps `{Host} (targetDir src : string) (locals : gmap string string)
    (file : string) : list event :=
  [ EvLog (WriteTo (target_of targetDir locals file));
    EvMkdirp (path_dirname (target_of targetDir locals file));
    EvWrite (target_of targetDir locals file) (output_of src locals file) ].

(** A template whose second question has a default that throws. *)
Definition Sample_throwing : Host :=
  Demo.host
    (Exports (Mapping
       [ ("name", Demo.ask (Literal "World"));
         ("port", Demo.ask (Derived (λ _, Throw (Thrown None "no port")))) ]))
    [ ("/tpl/boilerplate/one.txt", list_byte_of_string "Hello {{ name }}") ]
    ∅.

(** ** [getRegistryByType] (lines 286-309) *)

(** [process.env.npm_registry], [process.env.npm_config_registry] and
    [homedir()]. *)
Record settings := {
  npm_registry : option string;
  npm_config_registry : option string;
  homedir : string
}.

(** [s.replace(/\/$/, '')]: without one slash at the very end. *)
Fixpoint strip_slash (s : string) : string :=
  match s with
  | "" => ""
  | String a "" => if Ascii.eqb a "/" then "" else s
  | String a s' => String a (strip_slash s')
  end.

(** [/^https?:/.test(key)] *)
Definition is_url (key : string) : bool :=
  Str.starts_with "http:" key || Str.starts_with "https:" key.

(** [fs.existsSync(path)] *)
Definition existsSync (disk : gmap string stat) (path : string) : bool :=
  bool_decide (is_Some (disk !! path)).

(** [key] is absent when the caller passes [undefined]; the pattern then
    tests the text [undefined]. *)
Definition getRegistryByType `{Host} (env : settings) (disk : gmap string stat)
    (key : option string) : string :=
  if decide (key = Some "china") then "https://registry.npm.taobao.org"
  else if decide (key = Some "npm") then "https://registry.npmjs.org"
  else if decide (key = Some "netease") then "http://rnpm.hz.netease.com"
  else
    if is_url (default "undefined" key) then strip_slash (default "undefined" key)
    else
      let home := homedir env in
      let url :=
        match npm_registry env with
        | Some (String _ _ as u) => u
        | _ =>
            match npm_config_registry env with
            | Some (String _ _ as u) => u
            | _ => "https://registry.npmjs.org"
            end
        end in
      let url :=
        if existsSync disk (path_join home ".cnpmrc")
           || existsSync disk (path_join home ".tnpmrc")
        then "https://registry.npmjs.org"
        else url in
      strip_slash url.

(** ** Packages, boilerplates and the registry *)

(** An entry of a boilerplate mapping.  [bp_from] is the reference that
    [fetchBoilerplateMapping] stores in [item.from]: the package info
    object, kept here as the name under which it was requested. *)
Record boilerplate := {
  bp_name : option string;
  bp_package : option string;
  bp_description : option string;
  bp_category : option string;
  bp_deprecate : option string;
  bp_from : option string
}.

(** What the code reads of a package info object: [reason], [dist] with
    its [tarball], and [config] with its mappings. *)
Record package := {
  pk_reason : option string;
  pk_dist : option (option string);
  pk_config : option (gmap string (gmap string boilerplate))
}.

(** The result of [curl] with [dataType: 'json']. *)
Record response := {
  res_status : Z;
  res_data : option package
}.

Inductive source_log :=
| FetchingInfo (pkgName : string)
| UseFallback (pkgName : string)
| Downloading (tgzUrl : option string)
| ExtractTo (saveDir : string).

(** The calls that leave the process, in the order they are made. *)
Inductive source_event :=
| SrcLog (l : source_log)
| Curl (url : option string)
| RequireManifest (path : string)
| Rimraf (dir : string)
| Uncompress (dir : string).

Definition fetch (A : Type) : Type := list source_event * outcome A.

Global Instance fetch_ret : MRet fetch := λ A a, ([], Ok a).
Global Instance fetch_bind : MBind fetch := λ A B f m,
  match m with
  | (t, Ok a) => let '(t', r) := f a in (t ++ t', r)
  | (t, Throw e) => (t, Throw e)
  end.

Definition tell (e : source_event) : fetch unit := ([e], Ok tt).
Definition call {A} (o : outcome A) : fetch A := ([], o).

(** [try { m } catch (err) { handler(err) }] *)
Definition try_catch {A} (m : fetch A) (handler : js_error → fetch A) : fetch A :=
  match m with
  | (t, Ok a) => (t, Ok a)
  | (t, Throw err) => let '(t', r) := handler err in (t ++ t', r)
  end.

(** The collaborators of the remote part: [this.registryUrl], [urllib],
    [require] of a manifest, [rimraf], [compressing], [os.tmpdir()] and
    the error that [assert] throws with a message. *)
Class Remote := {
  registryUrl : string;
  curl_json : string → outcome response;
  curl_stream : option string → outcome (list byte);
  require_manifest : string → outcome package;
  rimraf : string → outcome unit;
  uncompress : list byte → string → outcome unit;
  tmpdir : string;
  assertion : string → js_error
}.

(** The text of an integer in a template literal. *)
Definition show (n : Z) : string :=
  DecimalString.NilZero.string_of_int (Z.to_int n).

(** [this.configName] *)
Definition configName : string := "akos-boilerplate-init-config".

(** [a || b] on names. *)
Definition name_or (a : option string) (b : string) : string :=
  match a with
  | Some (String _ _ as n) => n
  | _ => b
  end.

(** The body of the [forEach] of [fetchBoilerplateMapping]. *)
Definition named (from key : string) (item : boilerplate) : boilerplate :=
  {| bp_name := Some (name_or (bp_name item) key);
     bp_package := bp_package item;
     bp_description := bp_description item;
     bp_category := bp_category item;
     bp_deprecate := bp_deprecate item;
     bp_from := Some from |}.

Section Source.
Context `{Host} `{Remote}.

(** ** [getPackageInfo] (lines 484-503) *)
Definition getPackageInfo (pkgName : string) (withFallback : bool) : fetch package :=
  tell (SrcLog (FetchingInfo pkgName));;
  try_catch
    (let url := registryUrl +:+ "/" +:+ pkgName +:+ "/latest" in
     tell (Curl (Some url));;
     result ← call (curl_json url);
     (* the message is built before [assert] is called *)
     match res_data result with
     | None => call (Throw (TypeError_read "reason"))
     | Some data =>
         if decide (res_status result = 200%Z) then mret data
         else call (Throw (assertion
                ("npm info " +:+ pkgName +:+ " got error: "
                 +:+ show (res_status result) +:+ ", "
                 +:+ default "undefined" (pk_reason data))))
     end)
    (λ err,
       if withFallback then
         tell (SrcLog (UseFallback pkgName));;
         tell (RequireManifest (pkgName +:+ "/package.json"));;
         call (require_manifest (pkgName +:+ "/package.json"))
       else call (Throw err)).

(** ** [downloadBoilerplate] (lines 449-465) *)
Definition saveDir_of (pkgName : string) : string :=
  path_join tmpdir ("akos-boilerplate-init-config/" +:+ pkgName).

Definition downloadBoilerplate (pkgName : string) : fetch string :=
  result ← getPackageInfo pkgName false;
  match pk_dist result with
  | None => call (Throw (TypeError_read "tarball"))
  | Some tgzUrl =>
      tell (SrcLog (Downloading tgzUrl));;
      let saveDir := saveDir_of pkgName in
      tell (Rimraf saveDir);;
      call (rimraf saveDir);;
      tell (Curl tgzUrl);;
      response ← call (curl_stream tgzUrl);
      tell (Uncompress saveDir);;
      call (uncompress response saveDir);;
      tell (SrcLog (ExtractTo saveDir));;
      mret (path_join saveDir "/package")
  end.

(** ** [fetchBoilerplateMapping] (lines 388-400) *)
Definition fetchBoilerplateMapping (pkgName type : option string)
    : fetch (gmap string boilerplate) :=
  let name := name_or pkgName configName in
  pkgInfo ← getPackageInfo name true;
  match pk_config pkgInfo with
  | None => call (Throw (TypeError_read "boilerplate"))
  | Some config =>
      let mapping :=
        if decide (type = Some "client" ∨ type = Some "server")
        then config !! default "" type
        else config !! "boilerplate" in
      match mapping with
      | None =>
          (* [Object.keys(undefined)] *)
          call (Throw (Thrown None "Cannot convert undefined or null to object"))
      | Some mapping =>
          mret (map_imap (λ key item, Some (named name key item)) mapping)
      end
  end.

End Source.

(** The package that the registry serves for [pkgName]: the body of an
    answer with status 200.  Any other answer, an answer without a body
    and a failed request give none. *)
Definition remote_data `{Remote} (pkgName : string) : option package :=
  match curl_json (registryUrl +:+ "/" +:+ pkgName +:+ "/latest") with
  | Ok result =>
      if decide (res_status result = 200%Z) then res_data result else None
  | Throw _ => None
  end.

(** ** Samples for the remote part *)

Module Sample.

Definition simple : boilerplate :=
  {| bp_name := None; bp_package := Some "akos-boilerplate-simple";
     bp_description := Some "Simple app"; bp_category := None;
     bp_deprecate := None; bp_from := None |}.

Definition legacy : boilerplate :=
  {| bp_name := Some "old"; bp_package := Some "akos-boilerplate-old";
     bp_description := Some "Old app"; bp_category := Some "archive";
     bp_deprecate := Some "use simple"; bp_from := None |}.

Definition config : package :=
  {| pk_reason := None;
     pk_dist := Some (Some "https://registry.example/config.tgz");
     pk_config := Some {[ "boilerplate" := {[ "simple" := simple; "legacy" := legacy ]} ]} |}.

(** A registry that answers every lookup with [meta], every download
    with [archive], and a machine whose manifests load as [manifest]. *)
Definition remote (meta : outcome response) (archive : outcome (list byte))
    (manifest : outcome package) : Remote :=
  {| registryUrl := "https://registry.npmjs.org";
     curl_json := λ _, meta;
     curl_stream := λ _, archive;
     require_manifest := λ _, manifest;
     rimraf := λ _, Ok tt;
     uncompress := λ _ _, Ok tt;
     tmpdir := "/tmp";
     assertion := λ message, Thrown (Some "ERR_ASSERTION") message |}.

Definition online : Remote :=
  remote (Ok {| res_status := 200; res_data := Some config |})
    (Ok [x1f; x8b]) (Throw (Thrown (Some "MODULE_NOT_FOUND") "Cannot find module")).

Definition offline : Remote :=
  remote (Throw (Thrown (Some "ECONNREFUSED") "connect ECONNREFUSED"))
    (Throw (Thrown (Some "ECONNREFUSED") "connect ECONNREFUSED")) (Ok config).

(** The registry answers, the download of the archive fails. *)
Definition flaky : Remote :=
  remote (Ok {| res_status := 200; res_data := Some config |})
    (Throw (Thrown (Some "ECONNRESET") "socket hang up"))
    (Throw (Thrown (Some "MODULE_NOT_FOUND") "Cannot find module")).

End Sample.

(** ** [groupBy] (lines 46-71)

    The objects are finite maps of their own properties; [prop a key] is
    the value of the property [key] of the item [a], as the text it is
    when used as a property name, when the item has that property.

    A group whose name is the name of a member of [Object.prototype]
    (for instance a category called [constructor]) is not created:
    [result[name]] is then the inherited member and the item is stored
    in that built-in object; so is an item whose own key is [__proto__].
    These writes into built-in objects are outside the embedding:
    [groupBy] is [None] there. *)

Section GroupBy.
Context {A : Type} (prop : A → string → option string).

(** The group that an item goes to. *)
Definition group_name (key otherKey : string) (a : A) : string :=
  default otherKey (prop a key).

(** One round of the outer loop, on the entry [i], [obj[i]]. *)
Definition groupBy_step (key otherKey i : string) (a : A)
    (acc : option (gmap string (gmap string A)))
    : option (gmap string (gmap string A)) :=
  result ← acc;
  let name := group_name key otherKey a in
  if decide (name ∈ inherited ∨ i = "__proto__") then None
  else Some (<[name := <[i := a]> (default ∅ (result !! name))]> result).

Definition groupBy (obj : gmap string A) (key otherKey : string)
    : option (gmap string (gmap string A)) :=
  map_fold (groupBy_step key otherKey) (Some ∅) obj.

End GroupBy.

(** ** [askForBoilerplateType] (lines 79-141) *)

(** The property [key] of a boilerplate, as a property name. *)
Definition bp_prop (b : boilerplate) (key : string) : option string :=
  if decide (key = "name") then bp_name b
  else if decide (key = "package") then bp_package b
  else if decide (key = "description") then bp_description b
  else if decide (key = "category") then bp_category b
  else if decide (key = "deprecate") then bp_deprecate b
  else if decide (key = "from") then (λ _, "[object Object]") <$> bp_from b
  else None.

(** The user in front of the three list prompts: the position of the
    entry chosen among the entries offered, and the answer to the
    deprecation notice. *)
Class Prompter := {
  choose_group : string → list string → nat;
  choose_boilerplate : string → list (string * boilerplate) → nat;
  choose_install : string → bool
}.

(** The entry at position [n], counting round the entries offered. *)
Definition pick {X} (n : nat) (choices : list X) : option X :=
  choices !! (n `mod` length choices).

Inductive menu_event :=
| AskGroup (message : string) (choices : list string)
| AskBoilerplate (message : string) (choices : list (string * boilerplate))
| AskDeprecated (deprecate : string)
| ConsoleLog (line : string).

Definition menu (A : Type) : Type := list menu_event * outcome A.

Global Instance menu_ret : MRet menu := λ A a, ([], Ok a).
Global Instance menu_bind : MBind menu := λ A B f m,
  match m with
  | (t, Ok a) => let '(t', r) := f a in (t ++ t', r)
  | (t, Throw e) => (t, Throw e)
  end.

Definition show_menu (e : menu_event) : menu unit := ([e], Ok tt).
Definition fail_menu {A} (e : js_error) : menu A := ([], Throw e).

(** The entry of the second prompt for [key], [group[key]]. *)
Definition choice_of (entry : string * boilerplate) : string * boilerplate :=
  (entry.1 +:+ " - " +:+ default "undefined" (bp_description entry.2), entry.2).

(** The keys of the objects are listed in the order of [map_to_list];
    the order in which the engine lists them is not modelled.  The
    separator that heads the entries of the second prompt cannot be
    chosen and is left out, as are the page sizes.  A list prompt
    without an entry to choose fails on reading the value of the chosen
    entry; [askForBoilerplateType] never shows one. *)
Section Menu.
Context `{Prompter}.

(** [`${type} `], or nothing. *)
Definition type_word (type : option string) : string :=
  match type with
  | Some (String _ _ as t) => t +:+ " "
  | _ => ""
  end.

(** The group to choose the boilerplate from. *)
Definition group_menu (groupMapping : gmap string (gmap string boilerplate))
    (type : option string) : menu (option (gmap string boilerplate)) :=
  let groupNames := (map_to_list groupMapping).*1 in
  if (1 <? length groupNames)%nat then
    let message :=
      "Please select a " +:+ type_word type +:+ "boilerplate category" in
    show_menu (AskGroup message groupNames);;
    match pick (choose_group message groupNames) groupNames with
    | Some answer => mret (groupMapping !! answer)
    | None => fail_menu (TypeError_read "value")
    end
  else mret (head groupNames ≫= (groupMapping !!.)).

(** The boilerplate of the group, and the notice when it is deprecated. *)
Definition boilerplate_menu (group : option (gmap string boilerplate))
    (type : option string) : menu (option boilerplate) :=
  match group with
  | None =>
      (* [Object.keys(undefined)] *)
      fail_menu (Thrown None "Cannot convert undefined or null to object")
  | Some group =>
      let choices := choice_of <$> map_to_list group in
      let message :=
        "Please select a " +:+ type_word type +:+ "boilerplate type" in
      show_menu (AskBoilerplate message choices);;
      match pick (choose_boilerplate message choices) choices with
      | None => fail_menu (TypeError_read "value")
      | Some (_, boilerplateInfo) =>
          match bp_deprecate boilerplateInfo with
          | Some (String _ _ as deprecate) =>
              show_menu (AskDeprecated deprecate);;
              if choose_install deprecate then mret (Some boilerplateInfo)
              else
                show_menu (ConsoleLog ("Exit due to: " +:+ deprecate));;
                mret None
          | _ => mret (Some boilerplateInfo)
          end
      end
  end.

Definition menus (groupMapping : gmap string (gmap string boilerplate))
    (type : option string) : menu (option boilerplate) :=
  group ← group_menu groupMapping type;
  boilerplate_menu group type.

Definition askForBoilerplateType (mapping : gmap string boilerplate)
    (type : option string) : option (menu (option boilerplate)) :=
  match groupBy bp_prop mapping "category" "other" with
  | Some groupMapping => Some (menus groupMapping type)
  | None => None
  end.

End Menu.

(** A user who always takes the first entry, and one who takes the
    second and declines a deprecated boilerplate. *)
Definition Sample_first : Prompter :=
  {| choose_group := λ _ _, 0; choose_boilerplate := λ _ _, 0;
     choose_install := λ _, true |}.

Definition Sample_second : Prompter :=
  {| choose_group := λ _ _, 1; choose_boilerplate := λ _ _, 1;
     choose_install := λ _, false |}.

(** One who takes the second category and installs in any case. *)
Definition Sample_insist : Prompter :=
  {| choose_group := λ _ _, 1; choose_boilerplate := λ _ _, 0;
     choose_install := λ _, true |}.

Definition Sample_mapping : gmap string boilerplate :=
  {[ "simple" := Sample.simple; "legacy" := Sample.legacy ]}.

(** * Properties *)

(** ** Strings *)

Module StrFacts.

Lemma app_assoc (a b c : string) : (a +:+ b) +:+ c = a +:+ (b +:+ c).
Proof. induction a as [|x a IH]; cbn [append]; [done | by f_equal]. Qed.

Lemma app_nil_r (a : string) : a +:+ "" = a.
Proof. induction a as [|x a IH]; cbn [append]; [done | by f_equal]. Qed.

Lemma length_app (a b : string) :
  String.length (a +:+ b) = String.length a + String.length b.
Proof.
  induction a as [|x a IH]; cbn [append String.length]; [done | by rewrite IH].
Qed.

Lemma take_app (a b : string) :
  Str.take (String.length (a +:+ b) - String.length b) (a +:+ b) = a.
Proof.
  rewrite length_app.
  replace (String.length a + String.length b - String.length b)
    with (String.length a) by lia.
  induction a as [|x a IH]; simpl; [by destruct b | by rewrite IH].
Qed.

Lemma span_eq p s t r : Str.span p s = (t, r) → s = t +:+ r.
Proof.
  revert t r. induction s as [|a s IH]; simpl; intros t r E.
  - by inversion E.
  - destruct (p a).
    + destruct (Str.span p s) as [t' r'] eqn:E'. inversion E; subst.
      simpl. f_equal. by apply IH.
    + by inversion E.
Qed.

(** A character outside the class stops the span, whatever precedes it. *)
Lemma span_app_stop p x b r :
  p b = false →
  Str.span p (x +:+ String b r)
  = ((Str.span p x).1, (Str.span p x).2 +:+ String b r).
Proof.
  intros Hb. induction x as [|a x IH]; simpl.
  - by rewrite Hb.
  - destruct (p a); [|done].
    rewrite IH. by destruct (Str.span p x).
Qed.

Lemma span_forallb p t b r :
  Str.forallb p t = true → p b = false →
  Str.span p (t +:+ String b r) = (t, String b r).
Proof.
  intros Ht Hb. induction t as [|a t IH]; simpl in *.
  - by rewrite Hb.
  - apply andb_true_iff in Ht as [Ha Ht]. rewrite Ha, IH; done.
Qed.

Lemma forallb_spaces n : Str.forallb is_space (Str.spaces n) = true.
Proof. induction n; simpl; [done | by rewrite IHn]. Qed.

Lemma last_app_cons a b s : Str.last (a +:+ String b s) = Str.last (String b s).
Proof.
  induction a as [|x a IH]; [done|].
  simpl Str.last at 1. simpl append.
  destruct (a +:+ String b s) eqn:E; [by destruct a | by rewrite <- IH].
Qed.

End StrFacts.

(** Appends associated to the right, literals unfolded. *)
Ltac str_norm :=
  repeat first [rewrite StrFacts.app_assoc | progress cbn [append]].

(** ** The character classes are disjoint *)

Lemma space_not_word a : is_space a = true → is_word a = false.
Proof. unfold is_space. by intros ->%Ascii.eqb_eq. Qed.

Lemma space_not_close a : is_space a = true → is_close a = false.
Proof. unfold is_space. by intros ->%Ascii.eqb_eq. Qed.

Lemma close_not_word a : is_close a = true → is_word a = false.
Proof. unfold is_close. by intros ->%Ascii.eqb_eq. Qed.

Lemma word_not_space a : is_word a = true → is_space a = false.
Proof.
  intros Hw. destruct (is_space a) eqn:E; [|done].
  apply space_not_word in E. congruence.
Qed.

Lemma word_not_close a : is_word a = true → is_close a = false.
Proof.
  intros Hw. destruct (is_close a) eqn:E; [|done].
  apply close_not_word in E. congruence.
Qed.

Lemma backslash_not_open a : is_backslash a = true → is_open a = false.
Proof. unfold is_backslash. by intros ->%Ascii.eqb_eq. Qed.

(** ** The scan computes what the backtracking matcher computes *)

(** A quantifier never has to give a character back when the
    continuation fails on every text that starts inside its class. *)
Lemma greedy_span {R} p (k : string → string → option R) :
  (∀ taken a r, p a = true → k taken (String a r) = None) →
  ∀ s taken,
    greedy p k taken s = k (taken +:+ (Str.span p s).1) (Str.span p s).2.
Proof.
  intros Hk. induction s as [|a s IH]; intros taken; simpl.
  - by rewrite StrFacts.app_nil_r.
  - destruct (p a) eqn:Ha.
    + rewrite IH. destruct (Str.span p s) as [t r]; simpl.
      rewrite StrFacts.app_assoc; simpl.
      destruct (k (taken +:+ String a t) r); [done | by apply Hk].
    + by rewrite StrFacts.app_nil_r.
Qed.

Lemma exec_token caps s :
  exec [One is_open; One is_open; Star is_space; PlusG 2 is_word;
        Star is_space; One is_close; One is_close] caps s
  = match token s with
    | Some (_, key, rest) => Some (<[2 := key]> caps, rest)
    | None => None
    end.
Proof.
  destruct s as [|a [|b s1]]; [done | by simpl; destruct (is_open a) |].
  cbn [exec token].
  destruct (is_open a); [|done]. destruct (is_open b); [|done].
  cbn [andb].
  rewrite greedy_span; last first.
  { intros _ c r Hc. cbn [exec]. by rewrite (space_not_word c Hc). }
  destruct (Str.span is_space s1) as [sp1 s2]; cbn [fst snd].
  destruct s2 as [|c s2'].
  { by cbn. }
  cbn [exec Str.span].
  destruct (is_word c) eqn:Hc; [|done].
  rewrite greedy_span; last first.
  { intros tk d r Hd. cbn [exec greedy].
    rewrite (word_not_space d Hd). cbn [exec].
    by rewrite (word_not_close d Hd). }
  destruct (Str.span is_word s2') as [key' s3]; cbn [fst snd append].
  rewrite greedy_span; last first.
  { intros tk d r Hd. cbn [exec]. by rewrite (space_not_close d Hd). }
  destruct (Str.span is_space s3) as [sp2 s4]; cbn [fst snd].
  destruct s4 as [|x [|y rest]]; try done.
  - by destruct (is_close x).
  - by destruct (is_close x), (is_close y).
Qed.

Lemma token_sound s tok key rest :
  token s = Some (tok, key, rest) → s = tok +:+ rest.
Proof.
  unfold token. destruct s as [|a [|b s1]]; try done.
  destruct (is_open a) eqn:Ha; [|done]. destruct (is_open b) eqn:Hb; [|done].
  apply Ascii.eqb_eq in Ha, Hb. subst a b. cbn [andb].
  destruct (Str.span is_space s1) as [sp1 s2] eqn:E1.
  destruct (Str.span is_word s2) as [k s3] eqn:E2.
  destruct k as [|k0 k]; [done|].
  destruct (Str.span is_space s3) as [sp2 s4] eqn:E3.
  destruct s4 as [|x [|y r]]; try done.
  destruct (is_close x) eqn:Hx; [|done]. destruct (is_close y) eqn:Hy; [|done].
  apply Ascii.eqb_eq in Hx, Hy. subst x y. cbn [andb].
  intros [= <- <- <-].
  apply StrFacts.span_eq in E1, E2, E3. subst s1 s2 s3.
  cbn [append]. do 2 f_equal. by str_norm.
Qed.

Lemma scan_sound s esc tok key rest :
  scan s = Some (esc, tok, key, rest) →
  s = (if esc then "\" else "") +:+ tok +:+ rest.
Proof.
  unfold scan. destruct s as [|a s1]; [done|].
  destruct (is_backslash a) eqn:Ha.
  - apply Ascii.eqb_eq in Ha. subst a.
    destruct (token s1) as [[[t k] r]|] eqn:E; [|done].
    intros [= <- <- <- <-]. apply token_sound in E. by subst s1.
  - destruct (token (String a s1)) as [[[t k] r]|] eqn:E; [|done].
    intros [= <- <- <- <-]. by apply token_sound in E.
Qed.

Lemma exec_opt g p ns caps s :
  exec (Opt g p :: ns) caps s
  = match s with
    | String a s' =>
        if p a then
          match exec ns (<[g := String a ""]> caps) s' with
          | Some r => Some r
          | None => exec ns caps s
          end
        else exec ns caps s
    | "" => exec ns caps s
    end.
Proof. by destruct s. Qed.

(** The regular expression and the scan agree at every text. *)
Lemma regexp_exec_scan s :
  regexp_exec s
  = match scan s with
    | Some (esc, tok, key, rest) =>
        Some ((if esc then "\" else "") +:+ tok,
              if esc then Some "\" else None, key, rest)
    | None => None
    end.
Proof.
  unfold regexp_exec, placeholder_re. rewrite exec_opt.
  destruct (scan s) as [[[[esc tok] key] rest]|] eqn:Es.
  - pose proof (scan_sound _ _ _ _ _ Es) as Hs.
    unfold scan in Es. destruct s as [|a s1]; [done|].
    destruct (is_backslash a) eqn:Ha.
    + rewrite exec_token.
      destruct (token s1) as [[[t k] r]|]; [|done].
      injection Es as <- <- <- <-.
      rewrite Hs at 1 2. rewrite <- StrFacts.app_assoc, StrFacts.take_app.
      apply Ascii.eqb_eq in Ha. subst a.
      by rewrite lookup_insert_ne, !lookup_insert_eq.
    + rewrite exec_token.
      destruct (token (String a s1)) as [[[t k] r]|]; [|done].
      injection Es as <- <- <- <-.
      rewrite Hs at 1 2. rewrite <- StrFacts.app_assoc, StrFacts.take_app.
      by rewrite lookup_insert_ne, lookup_empty, lookup_insert_eq.
  - unfold scan in Es. destruct s as [|a s1]; [by rewrite exec_token|].
    destruct (is_backslash a) eqn:Ha.
    + rewrite !exec_token.
      destruct (token s1) as [[[t k] r]|]; [done|].
      cbn [token]. destruct s1; [done|].
      by rewrite (backslash_not_open a Ha).
    + rewrite exec_token. by destruct (token (String a s1)) as [[[t k] r]|].
Qed.

(** ** [replaceTemplate], one step at a time *)

Lemma token_open s tok key rest :
  token s = Some (tok, key, rest) → ∃ t, tok = String "{" (String "{" t).
Proof.
  unfold token. destruct s as [|a [|b s1]]; try done.
  destruct (is_open a && is_open b); [|done].
  destruct (Str.span is_space s1) as [sp1 s2].
  destruct (Str.span is_word s2) as [[|k0 k] s3]; [done|].
  destruct (Str.span is_space s3) as [sp2 [|x [|y r]]]; try done.
  destruct (is_close x && is_close y); [|done].
  intros [= <- <- <-]. cbn [append]. eauto.
Qed.

Lemma scan_open s esc tok key rest :
  scan s = Some (esc, tok, key, rest) → ∃ t, tok = String "{" (String "{" t).
Proof.
  unfold scan. destruct s as [|a s1]; [done|].
  destruct (is_backslash a).
  - destruct (token s1) as [[[t k] r]|] eqn:E; [|done].
    intros [= <- <- <- <-]. by eapply token_open.
  - destruct (token (String a s1)) as [[[t k] r]|] eqn:E; [|done].
    intros [= <- <- <- <-]. by eapply token_open.
Qed.

Lemma scan_shorter s esc tok key rest :
  scan s = Some (esc, tok, key, rest) → String.length rest < String.length s.
Proof.
  intros Hs. destruct (scan_open _ _ _ _ _ Hs) as [t ->].
  apply scan_sound in Hs as ->.
  rewrite !StrFacts.length_app. cbn [String.length]. lia.
Qed.

Lemma replace_from_step fuel scope s :
  replace_from (S fuel) scope s
  = match scan s with
    | Some (esc, tok, key, rest) =>
        replacement scope esc tok key +:+ replace_from fuel scope rest
    | None =>
        match s with
        | String a s' => String a (replace_from fuel scope s')
        | "" => ""
        end
    end.
Proof.
  cbn [replace_from]. rewrite regexp_exec_scan.
  destruct (scan s) as [[[[[] tok] key] rest]|]; done.
Qed.

(** More fuel than the length of the text changes nothing. *)
Lemma replace_from_fuel scope fuel1 : ∀ fuel2 s,
  (String.length s ≤ fuel1)%nat → (String.length s ≤ fuel2)%nat →
  replace_from fuel1 scope s = replace_from fuel2 scope s.
Proof.
  induction fuel1 as [|fuel1 IH]; intros fuel2 s H1 H2.
  - destruct s; [|cbn in H1; lia]. by destruct fuel2.
  - destruct fuel2 as [|fuel2].
    { destruct s; [done | cbn in H2; lia]. }
    rewrite !replace_from_step.
    destruct (scan s) as [[[[esc tok] key] rest]|] eqn:Es.
    + apply scan_shorter in Es. f_equal. apply IH; lia.
    + destruct s as [|a s']; [done|]. cbn in H1, H2. f_equal. apply IH; lia.
Qed.

(** The defining equation of the global replace. *)
Lemma replaceTemplate_step s scope :
  replaceTemplate s scope
  = match scan s with
    | Some (esc, tok, key, rest) =>
        replacement scope esc tok key +:+ replaceTemplate rest scope
    | None =>
        match s with
        | String a s' => String a (replaceTemplate s' scope)
        | "" => ""
        end
    end.
Proof.
  unfold replaceTemplate. destruct s as [|a s']; [done|].
  cbn [String.length]. rewrite replace_from_step.
  destruct (scan (String a s')) as [[[[esc tok] key] rest]|] eqn:Es.
  - apply scan_shorter in Es. cbn in Es. f_equal.
    apply replace_from_fuel; lia.
  - done.
Qed.

(** ** A match does not depend on what follows it *)

Lemma span_spec p s t r :
  Str.span p s = (t, r) →
  s = t +:+ r ∧ Str.forallb p t = true ∧
  match r with String c _ => p c = false | "" => True end.
Proof.
  revert t r. induction s as [|a s IH]; cbn; intros t r E.
  - by inversion E.
  - destruct (p a) eqn:Ha.
    + destruct (Str.span p s) as [t' r'] eqn:E'. inversion E; subst.
      destruct (IH _ _ eq_refl) as (-> & Ht & Hr).
      cbn. by rewrite Ha, Ht.
    + inversion E; subst. by rewrite Ha.
Qed.

Lemma span_app p s t c r x :
  Str.span p s = (t, String c r) →
  Str.span p (s +:+ x) = (t, String c r +:+ x).
Proof.
  intros (-> & Ht & Hc)%span_spec.
  rewrite StrFacts.app_assoc. cbn [append].
  by apply StrFacts.span_forallb.
Qed.

Lemma token_app s x tok key rest :
  token s = Some (tok, key, rest) → token (s +:+ x) = Some (tok, key, rest +:+ x).
Proof.
  unfold token. destruct s as [|a [|b s1]]; try done. cbn [append].
  destruct (is_open a && is_open b); [|done].
  destruct (Str.span is_space s1) as [sp1 s2] eqn:E1.
  destruct (Str.span is_word s2) as [[|k0 k] s3] eqn:E2; [done|].
  destruct (Str.span is_space s3) as [sp2 [|c [|d r]]] eqn:E3; try done.
  destruct (is_close c && is_close d) eqn:Hcd; [|done].
  intros [= <- <- <-].
  destruct s2 as [|c2 s2']; [done|].
  rewrite (span_app _ _ _ _ _ x E1).
  destruct s3 as [|c3 s3']; [done|].
  rewrite (span_app _ _ _ _ _ x E2), (span_app _ _ _ _ _ x E3).
  cbn [append]. by rewrite Hcd.
Qed.

Lemma scan_app s x esc tok key rest :
  scan s = Some (esc, tok, key, rest) →
  scan (s +:+ x) = Some (esc, tok, key, rest +:+ x).
Proof.
  unfold scan. destruct s as [|a s1]; [done|]. cbn [append].
  destruct (is_backslash a).
  - destruct (token s1) as [[[t k] r]|] eqn:E; [|done].
    intros [= <- <- <- <-]. by rewrite (token_app _ x _ _ _ E).
  - destruct (token (String a s1)) as [[[t k] r]|] eqn:E; [|done].
    intros [= <- <- <- <-].
    change (String a (s1 +:+ x)) with (String a s1 +:+ x).
    by rewrite (token_app _ x _ _ _ E).
Qed.

(** ** A failed attempt stays failed in front of a barrier *)

Lemma token_app_none pre rest :
  pre ≠ "" → barrier rest → token pre = None → token (pre +:+ rest) = None.
Proof.
  intros Hpre [Hopen Hb] Hnone.
  destruct rest as [|b r]; [by rewrite StrFacts.app_nil_r|].
  destruct Hb as (Hsp & Hw & Hcl).
  destruct pre as [|a [|a' s1]]; [done | |].
  - cbn [append]. destruct (is_open a) eqn:Ha.
    + apply Ascii.eqb_eq in Ha. by subst a.
    + cbn [token]. by rewrite Ha.
  - cbn [append]. unfold token in Hnone |- *.
    destruct (is_open a && is_open a'); [|done].
    rewrite (StrFacts.span_app_stop is_space) by done.
    destruct (Str.span is_space s1) as [sp1 s2]; cbn [fst snd].
    rewrite (StrFacts.span_app_stop is_word) by done.
    destruct (Str.span is_word s2) as [[|k0 k] s3]; cbn [fst snd]; [done|].
    rewrite (StrFacts.span_app_stop is_space) by done.
    destruct (Str.span is_space s3) as [sp2 s4]; cbn [fst snd].
    destruct s4 as [|x [|y r']]; cbn [append].
    + destruct r; [done | by rewrite Hcl].
    + by rewrite Hcl, andb_false_r.
    + by destruct (is_close x && is_close y).
Qed.

Lemma scan_app_none pre rest :
  pre ≠ "" → barrier rest →
  (Str.last pre = Some "\"%char → token rest = None) →
  scan pre = None → scan (pre +:+ rest) = None.
Proof.
  intros Hpre Hbar Hesc Hnone.
  destruct pre as [|a p1]; [done|]. unfold scan in *. cbn [append].
  destruct (is_backslash a) eqn:Ha.
  - destruct p1 as [|a1 p1'].
    + apply Ascii.eqb_eq in Ha. subst a. cbn [append]. by rewrite Hesc.
    + destruct (token (String a1 p1')) eqn:E; [by destruct p as [[??]?]|].
      by rewrite (token_app_none (String a1 p1') rest).
  - destruct (token (String a p1)) eqn:E; [by destruct p as [[??]?]|].
    change (String a (p1 +:+ rest)) with (String a p1 +:+ rest).
    by rewrite token_app_none.
Qed.

(** In front of a barrier the replacement of a text is the replacement
    of its two parts. *)
Lemma replaceTemplate_app scope rest :
  barrier rest →
  ∀ n pre,
    String.length pre < n →
    (Str.last pre = Some "\"%char → token rest = None) →
    replaceTemplate (pre +:+ rest) scope
    = replaceTemplate pre scope +:+ replaceTemplate rest scope.
Proof.
  intros Hbar. induction n as [|n IH]; intros pre Hlen Hesc; [lia|].
  destruct pre as [|a p']; [done|].
  rewrite (replaceTemplate_step (String a p' +:+ rest)).
  rewrite (replaceTemplate_step (String a p')).
  destruct (scan (String a p')) as [[[[esc tok] key] r]|] eqn:Es.
  - rewrite (scan_app _ rest _ _ _ _ Es).
    rewrite StrFacts.app_assoc. f_equal.
    apply IH.
    + apply scan_shorter in Es. lia.
    + destruct r as [|b r]; [done|].
      apply scan_sound in Es. rewrite Es in Hesc.
      rewrite <- StrFacts.app_assoc in Hesc.
      by rewrite StrFacts.last_app_cons in Hesc.
  - rewrite scan_app_none by done.
    cbn [append]. f_equal.
    apply IH.
    + cbn in Hlen. lia.
    + destruct p' as [|b p']; [done|].
      intros Hl. apply Hesc. by rewrite <- Hl.
Qed.

(** ** Placeholders are found where they stand *)

Lemma token_placeholder n key m post :
  is_key key = true →
  token (placeholder n key m +:+ post) = Some (placeholder n key m, key, post).
Proof.
  intros Hkey. destruct key as [|k0 k]; [done|].
  cbn [is_key Str.forallb] in Hkey. apply andb_true_iff in Hkey as [Hk0 Hk].
  unfold placeholder. str_norm. cbn [token is_open Ascii.eqb Bool.eqb andb].
  rewrite (StrFacts.span_forallb is_space); cycle 1.
  { apply StrFacts.forallb_spaces. }
  { by apply word_not_space. }
  assert (∃ b r, Str.spaces m +:+ String "}" (String "}" post) = String b r
                 ∧ is_word b = false) as (b & r & E & Hb).
  { destruct m; cbn; eauto. }
  rewrite E.
  change (String k0 (k +:+ String b r)) with (String k0 k +:+ String b r).
  rewrite (StrFacts.span_forallb is_word); cycle 1.
  { cbn. by rewrite Hk0, Hk. }
  { done. }
  rewrite <- E.
  rewrite (StrFacts.span_forallb is_space); cycle 1.
  { apply StrFacts.forallb_spaces. }
  { done. }
  cbn. by str_norm.
Qed.

Lemma scan_escaped n key m post :
  is_key key = true →
  scan ("\" +:+ placeholder n key m +:+ post)
  = Some (true, placeholder n key m, key, post).
Proof.
  intros Hkey.
  change ("\" +:+ placeholder n key m +:+ post)
    with (String "\" (placeholder n key m +:+ post)).
  unfold scan. change (is_backslash "\") with true. cbv iota.
  by rewrite token_placeholder.
Qed.

Lemma scan_placeholder n key m post :
  is_key key = true →
  scan (placeholder n key m +:+ post)
  = Some (false, placeholder n key m, key, post).
Proof.
  intros Hkey.
  pose proof (token_placeholder n key m post Hkey) as Ht.
  unfold placeholder in *. revert Ht. str_norm. intros Ht.
  unfold scan. cbn [is_backslash Ascii.eqb Bool.eqb]. by rewrite Ht.
Qed.

Lemma barrier_escaped s : barrier ("\" +:+ s).
Proof. done. Qed.

Lemma barrier_placeholder n key m post :
  is_key key = true → barrier (placeholder n key m +:+ post).
Proof.
  intros Hkey. split; [|done].
  destruct key as [|k0 k]; [done|].
  cbn in Hkey. apply andb_true_iff in Hkey as [Hk0 _].
  unfold placeholder. str_norm. cbn [token is_open Ascii.eqb Bool.eqb andb].
  by cbn.
Qed.

(** ** A settled text is a fixed point *)



(** ** Claims on [replaceTemplate] *)

Example replaceTemplate_known :
  replaceTemplate "{{ x }}" {[ "x" := "v" ]} = "v".
Proof. vm_compute. reflexivity. Qed.

Example replaceTemplate_mixed :
  replaceTemplate "a {{x}} \{{ y }} {{  z}} {{ x y }}"
    {[ "x" := "1"; "y" := "2" ]} = "a 1 {{ y }} {{  z}} {{ x y }}".
Proof. vm_compute. reflexivity. Qed.


(** The second pass also differs with values free of braces: the braces
    of the text close around a substituted value. *)
Example replaceTemplate_not_idempotent_plain :
  let scope : gmap string string := {[ "a" := "a" ]} in
  let content := "{{ {{ a }} }}" in
  Str.includes "\{{" content = false ∧
  replaceTemplate content scope = "{{ a }}" ∧
  replaceTemplate (replaceTemplate content scope) scope = "a".
Proof. vm_compute. repeat split. Qed.



(** C3: for every scope, a placeholder that directly follows a backslash,
    anywhere in the text, is copied verbatim without the backslash and is
    not substituted; what precedes and what follows it are replaced as
    they are on their own.  In particular
    [substitute("\\{{ x }}", {x:"v"}) = "{{ x }}"]. *)
Theorem replaceTemplate_escaped
    (scope : gmap string string) (pre post key : string) (n m : nat) :
  is_key key = true →
  replaceTemplate (pre +:+ "\" +:+ placeholder n key m +:+ post) scope
  = replaceTemplate pre scope +:+ placeholder n key m
    +:+ replaceTemplate post scope.
Proof.
  intros Hkey.
  rewrite (replaceTemplate_app scope _ (barrier_escaped _) (S (String.length pre)));
    [|lia|done].
  f_equal. rewrite replaceTemplate_step, scan_escaped by done. done.
Qed.

Lemma replaceTemplate_escaped_witness :
  is_key "x" = true ∧
  replaceTemplate "\{{ x }}" {[ "x" := "v" ]} = "{{ x }}".
Proof.
  split; [reflexivity|].
  exact (replaceTemplate_escaped {[ "x" := "v" ]} "" "" "x" 1 1 eq_refl).
Defined.

(** On a scope without a variable named [hasOwnProperty] the call
    returns, and returns what [replaceTemplate] computes. *)
Lemma replacer_call_inherited scope block skip key :
  scope !! "hasOwnProperty" = None →
  replacer_call scope block skip key = Ok (replacer scope block skip key).
Proof.
  intros Hown. unfold replacer_call, replacer, hasOwnProperty. rewrite Hown.
  destruct skip as [[|c sk]|]; [|done|]; cbn; by destruct (scope !! key).
Qed.

Lemma replace_call_inherited scope fuel : ∀ s,
  scope !! "hasOwnProperty" = None →
  replace_call fuel scope s = Ok (replace_from fuel scope s).
Proof.
  induction fuel as [|fuel IH]; intros s Hown; [done|].
  cbn [replace_call replace_from].
  destruct (regexp_exec s) as [[[[block skip] key] rest]|].
  - by rewrite replacer_call_inherited, IH.
  - destruct s as [|c s']; [done|]. by rewrite IH.
Qed.

Lemma replaceTemplate_call_inherited scope content :
  scope !! "hasOwnProperty" = None →
  replaceTemplate_call content scope = Ok (replaceTemplate content scope).
Proof. apply replace_call_inherited. Qed.

(** C4, at a scope that holds a variable named [hasOwnProperty]: the
    name [x] is not a key of the scope, and the call throws instead of
    copying the placeholder; so it does when the name is a key. *)
Lemma replaceTemplate_call_shadowed :
  let scope : gmap string string := {[ "hasOwnProperty" := "yes" ]} in
  scope !! "x" = None ∧
  replaceTemplate_call "{{ x }}" scope
  = Throw (Thrown None "scope.hasOwnProperty is not a function") ∧
  replaceTemplate_call "{{ hasOwnProperty }}" scope
  = Throw (Thrown None "scope.hasOwnProperty is not a function").
Proof. split; [|split]; vm_compute; reflexivity. Qed.

(** X29: for every scope without a variable named [hasOwnProperty], a
    placeholder that no backslash precedes and whose name is not a key
    of the scope is copied verbatim, braces included, wherever it
    stands; it is never replaced by the empty string.  In particular
    [substitute("{{ x }}", {}) = "{{ x }}"]. *)
Theorem replaceTemplate_unknown
    (scope : gmap string string) (pre post key : string) (n m : nat) :
  scope !! "hasOwnProperty" = None →
  is_key key = true →
  scope !! key = None →
  Str.last pre ≠ Some "\"%char →
  replaceTemplate_call (pre +:+ placeholder n key m +:+ post) scope
  = Ok (replaceTemplate pre scope +:+ placeholder n key m
        +:+ replaceTemplate post scope).
Proof.
  intros Hown Hkey Hnone Hpre.
  rewrite replaceTemplate_call_inherited by done. f_equal.
  rewrite (replaceTemplate_app scope _ (barrier_placeholder n key m post Hkey)
             (S (String.length pre))); [|lia|done].
  f_equal. rewrite replaceTemplate_step, scan_placeholder by done.
  unfold replacement. by rewrite Hnone.
Qed.

Lemma replaceTemplate_unknown_witness :
  replaceTemplate_call "{{ x }}" ∅ = Ok "{{ x }}" ∧
  replaceTemplate_call "a{{y}} {{ x }}" {[ "x" := "v" ]} = Ok "a{{y}} v".
Proof.
  split.
  - apply (replaceTemplate_unknown ∅ "" "" "x" 1 1);
      [reflexivity | reflexivity | reflexivity | discriminate].
  - rewrite (replaceTemplate_unknown {[ "x" := "v" ]} "a" " {{ x }}" "y" 0 0);
      [ | reflexivity | reflexivity | reflexivity | discriminate].
    vm_compute. reflexivity.
Defined.

(** ** Path mapping *)

Lemma fileMapping_get_None file :
  file ∉ aliases → file ∉ inherited → fileMapping_get file = None.
Proof.
  intros Ha Hi. unfold fileMapping_get, fileMapping, Object_prototype.
  rewrite (not_elem_of_list_to_map_1 _ _ Ha).
  by apply not_elem_of_list_to_map_1.
Qed.

Lemma fileMapping_get_Some file v :
  fileMapping_get file = Some v → file ∈ aliases ∨ file ∈ inherited.
Proof.
  unfold fileMapping_get, fileMapping, Object_prototype.
  destruct (list_to_map fileMapping_entries !! file) as [s|] eqn:E.
  - intros _. left. apply elem_of_list_to_map_2 in E.
    apply list_elem_of_fmap. by exists (file, s).
  - intros Hv. right. apply elem_of_list_to_map_2 in Hv.
    apply list_elem_of_fmap. by exists (file, v).
Qed.

Lemma mapPath_other file :
  file ∉ aliases → file ∉ inherited → mapPath file = file.
Proof. intros Ha Hi. unfold mapPath. by rewrite fileMapping_get_None. Qed.




(** C5, as stated, fails: the table renames more than the four names;
    [_.eslintignore] is none of them and becomes [.eslintignore]. *)
Lemma destination_eslintignore :
  ("_.eslintignore"
     ∉ ["gitignore"; "_gitignore"; "_.gitignore"; "_package.json"]) ∧
  destination "_.eslintignore" ∅ = ".eslintignore" ∧
  destination "_.eslintignore" ∅ ≠ replaceTemplate "_.eslintignore" ∅.
Proof.
  split; [|split].
  - intros H. repeat (apply elem_of_cons in H as [H|H]; [discriminate|]).
    by apply elem_of_nil in H.
  - vm_compute. reflexivity.
  - vm_compute. discriminate.
Qed.

(** C5, amended: the path mapper sends [gitignore], [_gitignore] and
    [_.gitignore] to [.gitignore], [_package.json] to [package.json],
    [_.eslintignore] to [.eslintignore] and [_.npmignore] to
    [.npmignore]; every name other than these six (and other than the
    name of a member of [Object.prototype]) passes through unchanged,
    modulo the placeholder substitution applied to the mapped path
    against the same scope. *)
Theorem destination_rename_table (locals : gmap string string) :
  destination "gitignore" locals = ".gitignore" ∧
  destination "_gitignore" locals = ".gitignore" ∧
  destination "_.gitignore" locals = ".gitignore" ∧
  destination "_package.json" locals = "package.json" ∧
  destination "_.eslintignore" locals = ".eslintignore" ∧
  destination "_.npmignore" locals = ".npmignore" ∧
  ∀ file,
    file ∉ aliases → file ∉ inherited →
    destination file locals = replaceTemplate file locals.
Proof.
  repeat split; try (vm_compute; reflexivity).
  intros file Ha Hi. unfold destination. by rewrite mapPath_other.
Qed.

Lemma destination_rename_table_witness :
  ("src/{{ name }}.js" ∉ aliases) ∧ ("src/{{ name }}.js" ∉ inherited) ∧
  destination "src/{{ name }}.js" {[ "name" := "app" ]} = "src/app.js".
Proof.
  assert (∀ l : list string, "src/{{ name }}.js" ∈ l →
            Exists (λ n, n = "src/{{ name }}.js") l) as Hex.
  { intros l Hl. apply Exists_exists. eauto. }
  assert ("src/{{ name }}.js" ∉ aliases) as Ha.
  { intros H%Hex. repeat (apply Exists_cons in H as [H|H]; [discriminate|]).
    by apply Exists_nil in H. }
  assert ("src/{{ name }}.js" ∉ inherited) as Hi.
  { intros H%Hex. repeat (apply Exists_cons in H as [H|H]; [discriminate|]).
    by apply Exists_nil in H. }
  split; [done | split; [done|]].
  destruct (destination_rename_table {[ "name" := "app" ]})
    as (_ & _ & _ & _ & _ & _ & Hother).
  rewrite (Hother "src/{{ name }}.js" Ha Hi).
  vm_compute. reflexivity.
Defined.

(** ** The file walk *)

Lemma writes_app t1 t2 : writes (t1 ++ t2) = writes t1 ++ writes t2.
Proof. apply omap_app. Qed.

Lemma run_bind_ok {A B} (f : A → run B) t a :
  ((t, Ok a) ≫= f) = (t ++ (f a).1, (f a).2).
Proof. unfold mbind, run_bind. by destruct (f a). Qed.

Section Walk.
Context `{Host}.

Lemma processFile_run targetDir src locals file :
  processFile targetDir src locals file
  = ([ EvLog (WriteTo (target_of targetDir locals file));
       EvMkdirp (path_dirname (target_of targetDir locals file));
       EvWrite (target_of targetDir locals file) (output_of src locals file) ],
     Ok tt).
Proof. done. Qed.


(** The [catch] block of question resolution: it reads the [code] of
    what was thrown, warns unless the code is [MODULE_NOT_FOUND], and
    returns the empty scope. *)
Lemma askForVariable_catch a targetDir templateDir e :
  load_questions targetDir templateDir = Throw e →
  askForVariable a targetDir templateDir
  = match err_code e with
    | Ok code =>
        (if decide (code = Some "MODULE_NOT_FOUND")
         then [] else [EvLog (LoadTrouble e)], Ok ∅)
    | Throw e' => ([], Throw e')
    end.
Proof.
  intros Hload. unfold askForVariable. rewrite Hload.
  destruct (err_code e) as [code|e']; [|done].
  unfold lift, mbind, run_bind.
  by destruct (decide (code = Some "MODULE_NOT_FOUND")).
Qed.

(** Question resolution writes no file. *)
Lemma askForVariable_writes a targetDir templateDir :
  writes (askForVariable a targetDir templateDir).1 = [].
Proof.
  destruct (load_questions targetDir templateDir) as [qs|e] eqn:Hload.
  - unfold askForVariable. rewrite Hload.
    destruct (argv_silent a); [|done].
    unfold lift. destruct (reduce silent_step ∅ qs); done.
  - rewrite (askForVariable_catch _ _ _ e Hload).
    destruct (err_code e) as [code|e']; [|done].
    by destruct (decide (code = Some "MODULE_NOT_FOUND")).
Qed.


End Walk.

(** ** The tree that a walk leaves *)


Lemma foldl_insert_fresh (ws : list (string * data)) : ∀ (tree : gmap string data) k,
  k ∉ ws.*1 → foldl (λ tr w, <[w.1 := w.2]> tr) tree ws !! k = tree !! k.
Proof.
  induction ws as [|[k' v'] ws IH]; intros tree k Hk; [done|].
  cbn in Hk. apply not_elem_of_cons in Hk as [Hne Hk].
  cbn [foldl]. rewrite IH by done. by apply lookup_insert_ne.
Qed.



(** ** Claims on the file walk *)







(** ** Question resolution *)

Section Resolution.
Context `{Host}.

Lemma load_questions_error targetDir templateDir e :
  load_error (require_questions templateDir) = Some e →
  load_questions targetDir templateDir = Throw e.
Proof.
  unfold load_questions, load_error.
  destruct (require_questions templateDir) as [e'|[qs|]|[[qs|]|e']];
    intros [= <-] || intros [=]; done.
Qed.

(** The two assignments to [result[key]] of the reducer amount to one,
    for every key that names a property of its own. *)
Lemma silent_step_value scope key q :
  key ≠ "__proto__" →
  silent_step scope (key, q)
  = (v ← silent_value scope q; Ok (<[key := v]> scope)).
Proof.
  intros Hkey. unfold silent_step, silent_value, assign, get.
  destruct (decide (key = "__proto__")) as [|_]; [done|].
  destruct (q_default q) as [|s|f]; cbn.
  - destruct (q_filter q) as [g|]; cbn; [|done].
    rewrite lookup_insert_eq. cbn. destruct (g (VString "")); cbn; [|done].
    by rewrite insert_insert_eq.
  - destruct (q_filter q) as [g|]; cbn; [|done].
    rewrite lookup_insert_eq. cbn. destruct (g (VString s)); cbn; [|done].
    by rewrite insert_insert_eq.
  - destruct (f scope) as [v|e]; cbn; [|done].
    destruct (q_filter q) as [g|]; cbn; [|done].
    rewrite lookup_insert_eq. cbn.
    destruct (g (VString (or_empty v))); cbn; [|done].
    by rewrite insert_insert_eq.
Qed.

(** Under the key [__proto__] the reducer stores nothing: the default
    is computed all the same, and the filter is called on
    [Object.prototype]. *)
Lemma silent_step_proto scope q :
  silent_step scope ("__proto__", q)
  = (match q_default q with
     | Derived defaultFn => defaultFn scope
     | _ => Ok None
     end ≫= λ _,
     match q_filter q with
     | Some filterFn => filterFn VObjectPrototype
     | None => Ok None
     end ≫= λ _, Ok scope).
Proof.
  unfold silent_step, assign, get. cbn.
  destruct (q_default q) as [|s|f]; cbn.
  - destruct (q_filter q) as [g|]; cbn; [|done]. by destruct (g _).
  - destruct (q_filter q) as [g|]; cbn; [|done]. by destruct (g _).
  - destruct (f scope) as [v|e]; cbn; [|done].
    destruct (q_filter q) as [g|]; cbn; [|done]. by destruct (g _).
Qed.

Lemma reduce_silent qs : ∀ scope,
  "__proto__" ∉ qs.*1 →
  reduce silent_step scope qs = silent_resolve scope qs.
Proof.
  induction qs as [|[key q] qs IH]; intros scope Hkeys; [done|].
  cbn in Hkeys. apply not_elem_of_cons in Hkeys as [Hkey Hkeys].
  cbn [reduce silent_resolve]. rewrite silent_step_value by done.
  destruct (silent_value scope q) as [v|e]; cbn; [by apply IH | done].
Qed.

End Resolution.

(** The question [name] without a default takes the name of the target
    directory, without a leading [egg-]. *)
Example load_questions_name_default :
  load_questions
    (H := Demo.host (Exports (Mapping [("name", Demo.ask NoDefault)])) [] ∅)
    "/home/egg-app" "/tpl"
  = Ok [("name", Demo.ask (Literal "app"))].
Proof. vm_compute. reflexivity. Qed.

(** Without [--silent] the questions are put to the user and the answers
    are the scope. *)
Example askForVariable_prompts :
  askForVariable
    (H := Demo.host (Exports (Mapping [("name", Demo.ask (Literal "World"))]))
            [] {[ "name" := "Mars" ]})
    (Demo.argv_of "app" false) "/home/app" "/tpl"
  = ([ EvLog Collecting;
       EvPromptQuestions
         [ {| pq_type := "input"; pq_name := "name"; pq_message := None;
              pq_default := Literal "World"; pq_filter := None;
              pq_choices := None |} ] ],
     Ok {[ "name" := "Mars" ]}).
Proof. vm_compute. reflexivity. Qed.

(** C6, at a question whose key is [__proto__]: the value is computed
    by the default, but the assignment [result[key] = ...] stores
    nothing under that key, and the scope that silent mode returns does
    not hold the question; the resolution in the words of the
    specification gives it the value. *)
Lemma askForVariable_silent_proto :
  let qs := [("__proto__", Demo.ask (Literal "x"))] in
  askForVariable (H := Demo.host (Exports (Mapping qs)) [] ∅)
    Demo.silently "/home/app" "/tpl"
  = ([EvLog Collecting; EvLog (UseDefault ∅)], Ok ∅) ∧
  silent_resolve ∅ qs = Ok {[ "__proto__" := "x" ]}.
Proof. split; vm_compute; reflexivity. Qed.

(** X28: in silent mode, when no question is keyed [__proto__],
    question resolution issues no prompt and resolves the questions in
    order: each value is the function-valued default called on the
    scope built so far, or the literal default, or the empty string when
    there is none, then the filter applied to it when there is one (the
    empty string when the filter yields nothing); the result is logged
    and returned.  For [a] with default [base] and [b] with default
    [(scope) => scope.a + "x"] the scope is [{a: "base", b: "basex"}]. *)
Theorem askForVariable_silent `{Host} (a : argv) (targetDir templateDir : string)
    (qs : questions) :
  argv_silent a = true →
  load_questions targetDir templateDir = Ok qs →
  ("__proto__" ∉ qs.*1) →
  askForVariable a targetDir templateDir
  = match silent_resolve ∅ qs with
    | Ok result => ([EvLog Collecting; EvLog (UseDefault result)], Ok result)
    | Throw e => ([EvLog Collecting], Throw e)
    end ∧
  Forall (λ e, is_prompt e = false) (askForVariable a targetDir templateDir).1.
Proof.
  intros Hsilent Hload Hkeys.
  assert (askForVariable a targetDir templateDir
          = match silent_resolve ∅ qs with
            | Ok result => ([EvLog Collecting; EvLog (UseDefault result)], Ok result)
            | Throw e => ([EvLog Collecting], Throw e)
            end) as Hrun.
  { unfold askForVariable. rewrite Hload, Hsilent, reduce_silent by done.
    by destruct (silent_resolve ∅ qs). }
  split; [done|]. rewrite Hrun.
  destruct (silent_resolve ∅ qs); repeat constructor.
Qed.

Lemma askForVariable_silent_witness :
  askForVariable (H := Demo.forward) Demo.silently "/home/app" "/tpl"
  = ([ EvLog Collecting;
       EvLog (UseDefault {[ "a" := "base"; "b" := "basex" ]}) ],
     Ok {[ "a" := "base"; "b" := "basex" ]}).
Proof.
  destruct (askForVariable_silent (H := Demo.forward) Demo.silently
              "/home/app" "/tpl"
              [ ("a", Demo.ask (Literal "base"));
                ("b", Demo.ask (Derived (λ scope,
                         Ok (Some (default "undefined" (scope !! "a") +:+ "x"))))) ]
              eq_refl eq_refl) as [Hrun _].
  - intros Hin. repeat (apply elem_of_cons in Hin as [Hin|Hin]; [discriminate|]).
    by apply elem_of_nil in Hin.
  - rewrite Hrun. vm_compute. reflexivity.
Defined.

(** C7, as stated, fails: a question source that is found, and whose
    exported function fails on a module that it cannot find, is not a
    source that is not found; yet its failure carries the code
    [MODULE_NOT_FOUND], and no warning is logged. *)
Lemma askForVariable_silenced_failure :
  let e := Thrown (Some "MODULE_NOT_FOUND") "Cannot find module 'moment'" in
  let source := ExportsFunction (Throw e) in
  let run :=
    askForVariable (H := Demo.host source [] ∅) Demo.silently "/home/app" "/tpl" in
  (∀ e', source ≠ RequireThrows e') ∧
  load_error source = Some e ∧
  run = ([], Ok ∅) ∧
  EvLog (LoadTrouble e) ∉ run.1.
Proof.
  split; [done|]. split; [done|]. split; [vm_compute; reflexivity|].
  apply not_elem_of_nil.
Qed.

(** What the [catch] block does with a thrown [null] or [undefined]: it
    fails on reading its [code], and question resolution throws. *)
Lemma askForVariable_nullish :
  askForVariable (H := Demo.host (RequireThrows ThrownNullish) [] ∅)
    Demo.silently "/home/app" "/tpl"
  = ([], Throw (TypeError_read "code")).
Proof. vm_compute. reflexivity. Qed.

(** C7, amended: when [require], the exported function or the reading
    of the export throws an error [e] (a value other than [null] and
    [undefined]), question resolution does not abort: the result is the
    empty scope; nothing is logged when the code of [e] is
    [MODULE_NOT_FOUND], whether it is the source or a module that the
    source requires that was not found, and one warning is logged
    otherwise. *)
Theorem askForVariable_load_failure `{Host} (a : argv)
    (targetDir templateDir : string) (e : js_error) :
  load_error (require_questions templateDir) = Some e →
  e ≠ ThrownNullish →
  ∃ code,
    err_code e = Ok code ∧
    askForVariable a targetDir templateDir
    = (if decide (code = Some "MODULE_NOT_FOUND")
       then []
       else [EvLog (LoadTrouble e)],
       Ok ∅).
Proof.
  intros Hload%(load_questions_error targetDir) Hobject.
  rewrite (askForVariable_catch a _ _ e Hload).
  destruct e as [code message|property|]; [| |done]; by eexists.
Qed.

Lemma askForVariable_load_failure_witness :
  askForVariable (H := Demo.twice) Demo.silently "/home/app" "/tpl" = ([], Ok ∅) ∧
  askForVariable (H := Demo.broken) Demo.silently "/home/app" "/tpl"
  = ([EvLog (LoadTrouble (Thrown None "Unexpected token"))], Ok ∅).
Proof.
  split.
  - destruct (askForVariable_load_failure (H := Demo.twice) Demo.silently
                "/home/app" "/tpl"
                (Thrown (Some "MODULE_NOT_FOUND") "Cannot find module") eq_refl)
      as (code & [= <-] & Hrun); [discriminate|]. exact Hrun.
  - destruct (askForVariable_load_failure (H := Demo.broken) Demo.silently
                "/home/app" "/tpl" (Thrown None "Unexpected token") eq_refl)
      as (code & [= <-] & Hrun); [discriminate|]. exact Hrun.
Defined.

(** ** Target-directory validation *)

Lemma filter_visible_nonempty names :
  Exists (λ name, visible name = true) names → List.filter visible names ≠ [].
Proof.
  induction 1 as [name names Hv|name names _ IH]; cbn.
  - by rewrite Hv.
  - by destruct (visible name).
Qed.

Section Validation.
Context `{Host}.

Lemma getTargetDirectory_accept a typed disk disk1 t1 :
  validate (argv_force a) (requested a) disk = (Accept, disk1, t1) →
  getTargetDirectory a typed disk
  = (Some (requested a), disk1, t1 ++ [EvLog (TargetDir (requested a))]).
Proof.
  intros Hv. unfold getTargetDirectory. fold (requested a). by rewrite Hv.
Qed.

Lemma getTargetDirectory_reject a typed disk why disk1 t1 :
  validate (argv_force a) (requested a) disk = (Reject why, disk1, t1) →
  ∃ t2,
    (getTargetDirectory a typed disk).2
    = t1 ++ [EvLog (Invalid why); EvPromptDir (proposed a)] ++ t2.
Proof.
  intros Hv. unfold getTargetDirectory. fold (requested a). rewrite Hv.
  destruct (prompt_dir _ _ _ typed disk1) as [[answer disk2] t2].
  eexists. cbn [snd]. unfold proposed. reflexivity.
Qed.

End Validation.

(** C8: validation of the target directory
    - accepts a path that does not exist, creates the directory and
      issues no prompt;
    - accepts an existing directory without visible entries (an empty
      one in particular) and issues no prompt;
    - on an existing directory with at least one entry whose name does
      not start with a dot, rejects when [force] is unset, and a prompt
      follows; accepts when [force] is set, logs the override warning
      and issues no prompt;
    - rejects an existing non-directory whatever [force] is, and a
      prompt follows. *)
Theorem getTargetDirectory_validation `{Host} (a : argv) (typed : list string)
    (disk : gmap string stat) :
  let dir := requested a in
  (disk !! dir = None →
     validate (argv_force a) dir disk
     = (Accept, <[dir := IsDirectory []]> disk, [EvMkdirp dir]) ∧
     getTargetDirectory a typed disk
     = (Some dir, <[dir := IsDirectory []]> disk,
        [EvMkdirp dir; EvLog (TargetDir dir)])) ∧
  (∀ names,
     disk !! dir = Some (IsDirectory names) →
     List.filter visible names = [] →
     validate (argv_force a) dir disk = (Accept, disk, []) ∧
     getTargetDirectory a typed disk = (Some dir, disk, [EvLog (TargetDir dir)])) ∧
  (∀ names,
     disk !! dir = Some (IsDirectory names) →
     Exists (λ name, visible name = true) names →
     if argv_force a
     then validate true dir disk = (Accept, disk, [EvLog (Override dir)]) ∧
          getTargetDirectory a typed disk
          = (Some dir, disk, [EvLog (Override dir); EvLog (TargetDir dir)])
     else validate false dir disk
          = (Reject (NotEmpty dir (List.filter visible names)), disk, []) ∧
          ∃ t, (getTargetDirectory a typed disk).2
               = [ EvLog (Invalid (NotEmpty dir (List.filter visible names)));
                   EvPromptDir (proposed a) ] ++ t) ∧
  (disk !! dir = Some IsFile →
     (∀ force, validate force dir disk = (Reject (ExistsAsFile dir), disk, [])) ∧
     ∃ t, (getTargetDirectory a typed disk).2
          = [EvLog (Invalid (ExistsAsFile dir)); EvPromptDir (proposed a)] ++ t).
Proof.
  intros dir. split; [|split; [|split]].
  - intros Hnone.
    assert (validate (argv_force a) dir disk
            = (Accept, <[dir := IsDirectory []]> disk, [EvMkdirp dir])) as Hv.
    { unfold validate. by rewrite Hnone. }
    split; [done|]. by rewrite (getTargetDirectory_accept _ _ _ _ _ Hv).
  - intros names Hdir Hhidden.
    assert (validate (argv_force a) dir disk = (Accept, disk, [])) as Hv.
    { unfold validate. by rewrite Hdir, Hhidden. }
    split; [done|]. by rewrite (getTargetDirectory_accept _ _ _ _ _ Hv).
  - intros names Hdir Hvisible%filter_visible_nonempty.
    assert (∀ force, validate force dir disk
              = if force
                then (Accept, disk, [EvLog (Override dir)])
                else (Reject (NotEmpty dir (List.filter visible names)), disk, []))
      as Hv.
    { intros force. unfold validate. rewrite Hdir.
      by destruct (List.filter visible names). }
    destruct (argv_force a) eqn:Hforce.
    + split; [apply (Hv true)|].
      rewrite (getTargetDirectory_accept a typed disk disk [EvLog (Override dir)]);
        [done|].
      rewrite Hforce. apply (Hv true).
    + split; [apply (Hv false)|].
      destruct (getTargetDirectory_reject a typed disk
                  (NotEmpty dir (List.filter visible names)) disk [])
        as [t Ht]; [rewrite Hforce; apply (Hv false)|].
      by exists t.
  - intros Hfile.
    assert (∀ force, validate force dir disk
              = (Reject (ExistsAsFile dir), disk, [])) as Hv.
    { intros force. unfold validate. by rewrite Hfile. }
    split; [done|].
    destruct (getTargetDirectory_reject a typed disk (ExistsAsFile dir) disk [])
      as [t Ht]; [apply Hv|].
    by exists t.
Qed.

Lemma getTargetDirectory_validation_witness :
  getTargetDirectory (H := Demo.hello) (Demo.argv_of "new" false) [] Demo.disk
  = (Some "/home/new", <["/home/new" := IsDirectory []]> Demo.disk,
     [EvMkdirp "/home/new"; EvLog (TargetDir "/home/new")]) ∧
  getTargetDirectory (H := Demo.hello) (Demo.argv_of "empty" false) [] Demo.disk
  = (Some "/home/empty", Demo.disk, [EvLog (TargetDir "/home/empty")]) ∧
  getTargetDirectory (H := Demo.hello) (Demo.argv_of "app" true) [] Demo.disk
  = (Some "/home/app", Demo.disk,
     [EvLog (Override "/home/app"); EvLog (TargetDir "/home/app")]) ∧
  validate false "/home/app" Demo.disk
  = (Reject (NotEmpty "/home/app" ["package.json"]), Demo.disk, []) ∧
  validate true "/home/notes" Demo.disk
  = (Reject (ExistsAsFile "/home/notes"), Demo.disk, []).
Proof.
  split; [|split; [|split; [|split]]].
  - destruct (getTargetDirectory_validation (H := Demo.hello)
                (Demo.argv_of "new" false) [] Demo.disk) as (Hnew & _).
    apply Hnew. vm_compute. reflexivity.
  - destruct (getTargetDirectory_validation (H := Demo.hello)
                (Demo.argv_of "empty" false) [] Demo.disk) as (_ & Hempty & _).
    apply (Hempty []); vm_compute; reflexivity.
  - destruct (getTargetDirectory_validation (H := Demo.hello)
                (Demo.argv_of "app" true) [] Demo.disk) as (_ & _ & Hfull & _).
    apply (Hfull [".git"; "package.json"]).
    + vm_compute. reflexivity.
    + right. left. reflexivity.
  - destruct (getTargetDirectory_validation (H := Demo.hello)
                (Demo.argv_of "app" false) [] Demo.disk) as (_ & _ & Hfull & _).
    apply (Hfull [".git"; "package.json"]).
    + vm_compute. reflexivity.
    + right. left. reflexivity.
  - destruct (getTargetDirectory_validation (H := Demo.hello)
                (Demo.argv_of "notes" false) [] Demo.disk) as (_ & _ & _ & Hfile).
    apply Hfile. vm_compute. reflexivity.
Defined.

(** * Further properties of the code *)

(** ** [replaceTemplate] *)

Lemma includes_cons t a s :
  Str.includes t (String a s) = Str.starts_with t (String a s) || Str.includes t s.
Proof. done. Qed.

Lemma token_starts s tok key rest :
  token s = Some (tok, key, rest) → Str.starts_with "{{" s = true.
Proof.
  intros Ht. destruct (token_open _ _ _ _ Ht) as [t ->].
  apply token_sound in Ht as ->. done.
Qed.

Lemma scan_needs_braces s :
  Str.includes "{{" s = false → scan s = None.
Proof.
  intros Hs. unfold scan. destruct s as [|a s1]; [done|].
  rewrite includes_cons in Hs. apply orb_false_iff in Hs as [Hhere Hlater].
  destruct (is_backslash a).
  - destruct (token s1) as [[[t k] r]|] eqn:E; [|done].
    apply token_starts in E. destruct s1 as [|b s2]; [done|].
    rewrite includes_cons, E in Hlater. done.
  - destruct (token (String a s1)) as [[[t k] r]|] eqn:E; [|done].
    apply token_starts in E. congruence.
Qed.

(** X1: a text without two consecutive opening braces is returned as it is,
    whatever the scope holds. *)
Theorem replaceTemplate_without_braces
    (scope : gmap string string) (content : string) :
  Str.includes "{{" content = false →
  replaceTemplate content scope = content.
Proof.
  induction content as [|a s IH]; intros Hs; [done|].
  rewrite replaceTemplate_step, scan_needs_braces by done.
  rewrite includes_cons in Hs. apply orb_false_iff in Hs as [_ Hs].
  by rewrite IH.
Qed.

Lemma replaceTemplate_without_braces_witness :
  replaceTemplate "module.exports = { a: 1 };" {[ "a" := "b" ]}
  = "module.exports = { a: 1 };".
Proof.
  apply (replaceTemplate_without_braces {[ "a" := "b" ]}).
  vm_compute. reflexivity.
Defined.

(** X2: for every scope without a variable named [hasOwnProperty], a
    placeholder that no backslash precedes and whose key the scope
    defines is replaced by the value, wherever it stands; the value is
    inserted as it is and is not scanned again. *)
Theorem replaceTemplate_defined
    (scope : gmap string string) (pre post key value : string) (n m : nat) :
  scope !! "hasOwnProperty" = None →
  is_key key = true →
  scope !! key = Some value →
  Str.last pre ≠ Some "\"%char →
  replaceTemplate_call (pre +:+ placeholder n key m +:+ post) scope
  = Ok (replaceTemplate pre scope +:+ value +:+ replaceTemplate post scope).
Proof.
  intros Hown Hkey Hsome Hpre.
  rewrite replaceTemplate_call_inherited by done. f_equal.
  rewrite (replaceTemplate_app scope _ (barrier_placeholder n key m post Hkey)
             (S (String.length pre))); [|lia|done].
  f_equal. rewrite replaceTemplate_step, scan_placeholder by done.
  unfold replacement. by rewrite Hsome.
Qed.

Lemma replaceTemplate_defined_witness :
  replaceTemplate_call "x={{a}};" {[ "a" := "{{ b }}"; "b" := "1" ]}
  = Ok "x={{ b }};".
Proof.
  rewrite (replaceTemplate_defined {[ "a" := "{{ b }}"; "b" := "1" ]}
             "x=" ";" "a" "{{ b }}" 0 0);
    [ | reflexivity | reflexivity | reflexivity | discriminate].
  vm_compute. reflexivity.
Defined.

(** ** Path mapping *)

(** X3: a mapped name is never itself renamed: mapping twice is mapping
    once, for every name. *)
Theorem mapPath_idempotent (file : string) :
  mapPath (mapPath file) = mapPath file.
Proof.
  destruct (fileMapping_get file) as [v|] eqn:E.
  - assert (Forall (λ n, mapPath (mapPath n) = mapPath n) (aliases ++ inherited))
      as Hall by (vm_compute; repeat constructor).
    rewrite Forall_forall in Hall. apply Hall, elem_of_app.
    by eapply fileMapping_get_Some.
  - assert (mapPath file = file) as -> by (unfold mapPath; by rewrite E).
    unfold mapPath. by rewrite E.
Qed.

(** ** The file walk, event by event *)

Section WalkTrace.
Context `{Host}.

Lemma forEach_trace targetDir src locals files :
  forEach (processFile targetDir src locals) files
  = (files ≫= steps targetDir src locals, Ok tt).
Proof.
  induction files as [|file files IH]; [done|].
  cbn [forEach]. by rewrite processFile_run, run_bind_ok, IH.
Qed.

Lemma processFiles_trace a targetDir templateDir :
  let src := path_join templateDir "boilerplate" in
  processFiles a targetDir templateDir
  = match askForVariable a targetDir templateDir with
    | (t0, Ok locals) =>
        (t0 ++ (glob_sync src ≫= steps targetDir src locals), Ok (glob_sync src))
    | (t0, Throw e) => (t0, Throw e)
    end.
Proof.
  intros src. unfold processFiles. fold src.
  destruct (askForVariable a targetDir templateDir) as [t0 [locals|e]]; [|done].
  rewrite run_bind_ok, forEach_trace, run_bind_ok. cbn [fst snd mret run_ret].
  by rewrite !app_nil_r.
Qed.

(** What question resolution can leave in the trace. *)
Lemma askForVariable_cases a targetDir templateDir :
  (∃ e, load_questions targetDir templateDir = Throw e ∧
        askForVariable a targetDir templateDir
        = match err_code e with
          | Ok code =>
              (if decide (code = Some "MODULE_NOT_FOUND")
               then [] else [EvLog (LoadTrouble e)], Ok ∅)
          | Throw e' => ([], Throw e')
          end) ∨
  (∃ qs, load_questions targetDir templateDir = Ok qs ∧ argv_silent a = true ∧
         ((∃ e, reduce silent_step ∅ qs = Throw e ∧
                askForVariable a targetDir templateDir
                = ([EvLog Collecting], Throw e)) ∨
          (∃ r, reduce silent_step ∅ qs = Ok r ∧
                askForVariable a targetDir templateDir
                = ([EvLog Collecting; EvLog (UseDefault r)], Ok r)))) ∨
  (∃ qs, load_questions targetDir templateDir = Ok qs ∧ argv_silent a = false ∧
         askForVariable a targetDir templateDir
         = ([EvLog Collecting; EvPromptQuestions (prompt_of <$> qs)],
            Ok (inquirer_prompt (prompt_of <$> qs)))).
Proof.
  destruct (load_questions targetDir templateDir) as [qs|e] eqn:Hload.
  - right. unfold askForVariable. rewrite Hload. destruct (argv_silent a).
    + left. exists qs. split; [done|]. split; [done|].
      destruct (reduce silent_step ∅ qs) as [r|e]; [right | left]; eauto.
    + right. exists qs. done.
  - left. exists e. split; [done|]. by apply askForVariable_catch.
Qed.

End WalkTrace.

Section WalkProperties.
Context `{Host}.

(** Question resolution only logs and asks its questions. *)
Lemma askForVariable_quiet a targetDir templateDir :
  Forall (λ ev, match ev with
                | EvLog _ | EvPromptQuestions _ => True
                | _ => False
                end) (askForVariable a targetDir templateDir).1.
Proof.
  destruct (askForVariable_cases a targetDir templateDir)
    as [(e & _ & ->)|[(qs & _ & _ & [(e & _ & ->)|(r & _ & ->)])|(qs & _ & _ & ->)]];
    cbn [fst]; [|repeat constructor..].
  destruct (err_code e) as [code|e']; [|constructor].
  destruct (decide (code = Some "MODULE_NOT_FOUND")); repeat constructor.
Qed.

Lemma steps_no_prompt targetDir src locals files :
  List.filter is_prompt (files ≫= steps targetDir src locals) = [].
Proof. induction files as [|file files IH]; [done|]. cbn. exact IH. Qed.

End WalkProperties.

(** X4: when question resolution throws, [processFiles] throws the
    same error at once: its trace is the one of question resolution,
    which only logs and asks; no directory has been created and no file
    written. *)
Theorem processFiles_throws_early `{Host} (a : argv)
    (targetDir templateDir : string) (e : js_error) :
  (askForVariable a targetDir templateDir).2 = Throw e →
  processFiles a targetDir templateDir
  = ((askForVariable a targetDir templateDir).1, Throw e) ∧
  ∀ ev, ev ∈ (processFiles a targetDir templateDir).1 →
        match ev with
        | EvMkdirp _ | EvWrite _ _ => False
        | _ => True
        end.
Proof.
  intros Hthrow. rewrite processFiles_trace.
  pose proof (askForVariable_quiet a targetDir templateDir) as Hquiet.
  destruct (askForVariable a targetDir templateDir) as [t0 r].
  cbn [fst snd] in *. subst r. split; [done|].
  intros ev Hev. rewrite Forall_forall in Hquiet. apply Hquiet in Hev.
  by destruct ev.
Qed.

Lemma processFiles_throws_early_witness :
  processFiles (H := Sample_throwing) Demo.silently "/home/app" "/tpl"
  = ((askForVariable (H := Sample_throwing) Demo.silently "/home/app" "/tpl").1,
     Throw (Thrown None "no port")) ∧
  ∀ ev, ev ∈ (processFiles (H := Sample_throwing) Demo.silently
                "/home/app" "/tpl").1 →
        match ev with
        | EvMkdirp _ | EvWrite _ _ => False
        | _ => True
        end.
Proof.
  apply (processFiles_throws_early (H := Sample_throwing) Demo.silently
           "/home/app" "/tpl" (Thrown None "no port")).
  vm_compute. reflexivity.
Defined.

(** X5: every file is written right after [mkdirp] of its parent directory. *)
Theorem processFiles_mkdirp_first `{Host} (a : argv)
    (targetDir templateDir to : string) (d : data) :
  EvWrite to d ∈ (processFiles a targetDir templateDir).1 →
  ∃ t1 t2,
    (processFiles a targetDir templateDir).1
    = t1 ++ [EvMkdirp (path_dirname to); EvWrite to d] ++ t2.
Proof.
  rewrite processFiles_trace.
  pose proof (askForVariable_quiet a targetDir templateDir) as Hquiet.
  destruct (askForVariable a targetDir templateDir) as [t0 [locals|e]];
    cbn [fst] in *; rewrite Forall_forall in Hquiet.
  - intros [Hin|Hin]%elem_of_app; [by apply Hquiet in Hin|].
    apply list_elem_of_bind in Hin as (file & Hstep & Hfile).
    apply list_elem_of_split in Hfile as (l1 & l2 & ->).
    unfold steps in Hstep.
    repeat (apply elem_of_cons in Hstep as [Hstep|Hstep]; [try done|]);
      [|by apply elem_of_nil in Hstep].
    injection Hstep as -> ->.
    eexists (t0 ++ (l1 ≫= steps _ _ locals) ++ [_]), (l2 ≫= steps _ _ locals).
    rewrite bind_app. cbn [mbind list_bind steps].
    by rewrite <- !app_assoc.
  - intros Hin. by apply Hquiet in Hin.
Qed.

Lemma processFiles_mkdirp_first_witness :
  ∃ t1 t2,
    (processFiles (H := Demo.hello) Demo.silently "/home/app" "/tpl").1
    = t1 ++ [ EvMkdirp "/home/app";
              EvWrite "/home/app/one.txt" (Text "Hello World") ] ++ t2.
Proof.
  apply (processFiles_mkdirp_first (H := Demo.hello) Demo.silently
           "/home/app" "/tpl" "/home/app/one.txt" (Text "Hello World")).
  vm_compute. right. right. right. right. left.
Defined.

(** X6: a run of [processFiles] asks at most once, and never in silent mode;
    the walk itself asks nothing. *)
Theorem processFiles_prompts `{Host} (a : argv) (targetDir templateDir : string) :
  let t := (processFiles a targetDir templateDir).1 in
  (length (List.filter is_prompt t) ≤ 1)%nat ∧
  (argv_silent a = true → List.filter is_prompt t = []).
Proof.
  cbn zeta. rewrite processFiles_trace.
  destruct (askForVariable_cases a targetDir templateDir)
    as [(e & _ & ->)|[(qs & _ & Hs & [(e & _ & ->)|(r & _ & ->)])|(qs & _ & Hs & ->)]];
    cbn [fst]; rewrite ?List.filter_app, ?steps_no_prompt.
  - destruct (err_code e) as [code|e']; [|cbn; split; [lia|done]].
    destruct (decide (code = Some "MODULE_NOT_FOUND")); cbn [fst];
      rewrite ?List.filter_app, ?steps_no_prompt; cbn; (split; [lia|done]).
  - cbn. split; [lia|done].
  - cbn. split; [lia|done].
  - cbn. split; [lia|]. congruence.
Qed.

Lemma processFiles_prompts_witness :
  List.filter is_prompt
    (processFiles (H := Demo.hello) Demo.silently "/home/app" "/tpl").1 = [].
Proof.
  apply (processFiles_prompts (H := Demo.hello) Demo.silently "/home/app" "/tpl").
  reflexivity.
Defined.

(** ** The tree after a walk with colliding destinations *)

Lemma writes_steps `{Host} targetDir src locals files :
  writes (files ≫= steps targetDir src locals)
  = (λ file, (target_of targetDir locals file, output_of src locals file))
      <$> files.
Proof.
  induction files as [|file files IH]; [done|].
  cbn [mbind list_bind]. rewrite writes_app, IH. done.
Qed.

Lemma processFiles_writes_ok `{Host} a targetDir templateDir t0 locals :
  askForVariable a targetDir templateDir = (t0, Ok locals) →
  writes (processFiles a targetDir templateDir).1
  = (λ file, (target_of targetDir locals file,
              output_of (path_join templateDir "boilerplate") locals file))
      <$> glob_sync (path_join templateDir "boilerplate").
Proof.
  intros Hask. rewrite processFiles_trace.
  pose proof (askForVariable_writes a targetDir templateDir) as Hw0.
  rewrite Hask in *. cbn [fst] in *.
  by rewrite writes_app, Hw0, writes_steps.
Qed.



(** X8: a walk leaves every path that is no destination as it was: nothing
    is removed and nothing else is overwritten. *)
Theorem processFiles_elsewhere `{Host} (a : argv)
    (targetDir templateDir : string) (tree0 : gmap string data) (p : string) :
  (∀ locals file,
     (askForVariable a targetDir templateDir).2 = Ok locals →
     file ∈ glob_sync (path_join templateDir "boilerplate") →
     target_of targetDir locals file ≠ p) →
  tree_after tree0 (processFiles a targetDir templateDir).1 !! p = tree0 !! p.
Proof.
  intros Hp. unfold tree_after.
  destruct (askForVariable a targetDir templateDir) as [t0 [locals|e]] eqn:Hask.
  - rewrite (processFiles_writes_ok _ _ _ _ _ Hask).
    apply foldl_insert_fresh. rewrite <- list_fmap_compose.
    intros (file & Heq & Hin)%list_elem_of_fmap.
    by apply (Hp locals file).
  - rewrite processFiles_trace, Hask. cbn [fst].
    pose proof (askForVariable_writes a targetDir templateDir) as Hw0.
    rewrite Hask in Hw0. cbn [fst] in Hw0. by rewrite Hw0.
Qed.

Lemma processFiles_elsewhere_witness :
  tree_after {[ "/home/app/README.md" := Text "mine" ]}
    (processFiles (H := Demo.hello) Demo.silently "/home/app" "/tpl").1
    !! "/home/app/README.md"
  = Some (Text "mine").
Proof.
  rewrite (processFiles_elsewhere (H := Demo.hello) Demo.silently
             "/home/app" "/tpl" {[ "/home/app/README.md" := Text "mine" ]}
             "/home/app/README.md").
  - reflexivity.
  - intros locals file Hlocals Hfile.
    assert (locals = {[ "name" := "World" ]}) as ->.
    { vm_compute in Hlocals. by injection Hlocals. }
    vm_compute in Hfile.
    repeat (apply elem_of_cons in Hfile as [->|Hfile]; [vm_compute; discriminate|]).
    by apply elem_of_nil in Hfile.
Defined.

(** ** Loading the questions *)

Lemma set_default_keys key d (qs : questions) : (set_default key d qs).*1 = qs.*1.
Proof.
  induction qs as [|[k q] qs IH]; [done|].
  cbn. rewrite <- IH. by destruct (decide (k = key)).
Qed.

Lemma question_of_set_default key d (qs : questions) k :
  question_of k (set_default key d qs)
  = if decide (k = key) then with_default d <$> question_of k qs
    else question_of k qs.
Proof.
  unfold set_default.
  induction qs as [|[k' q] qs IH]; cbn [fmap list_fmap question_of fst snd].
  - by destruct (decide (k = key)).
  - destruct (decide (k' = key)) as [->|Hk']; cbn [question_of].
    + destruct (decide (key = k)) as [->|Hne].
      * by rewrite decide_True.
      * rewrite IH. by rewrite (decide_False (P := k = key)).
    + destruct (decide (k' = k)) as [->|Hne].
      * by rewrite decide_False.
      * apply IH.
Qed.

(** X9: loading keeps the questions, their order and their fields; the one
    thing it changes is the default of the question [name], and only
    when that question declares none: it becomes the name of the target
    directory without a leading [egg-]. *)
Theorem load_questions_only_name `{Host} (targetDir templateDir : string)
    (qs : questions) :
  require_questions templateDir = Exports (Mapping qs) ∨
  require_questions templateDir = ExportsFunction (Ok (Mapping qs)) →
  ∃ qs',
    load_questions targetDir templateDir = Ok qs' ∧
    qs'.*1 = qs.*1 ∧
    (∀ key, key ≠ "name" → question_of key qs' = question_of key qs) ∧
    question_of "name" qs'
    = (λ q, if no_default q
            then with_default
                   (Literal (strip_egg (path_basename targetDir))) q
            else q) <$> question_of "name" qs.
Proof.
  intros Hsrc.
  assert (load_questions targetDir templateDir
          = match question_of "name" qs with
            | Some q =>
                if no_default q
                then Ok (set_default "name"
                           (Literal (strip_egg (path_basename targetDir))) qs)
                else Ok qs
            | None => Ok qs
            end) as ->.
  { unfold load_questions. by destruct Hsrc as [-> | ->]. }
  destruct (question_of "name" qs) as [q|] eqn:Hname; cbn.
  - destruct (no_default q) eqn:Hq.
    + eexists. split; [done|]. split; [apply set_default_keys|]. split.
      * intros key Hkey. rewrite question_of_set_default. by rewrite decide_False.
      * rewrite question_of_set_default, decide_True, Hname by done. done.
    + exists qs. by rewrite Hname.
  - exists qs. by rewrite Hname.
Qed.

Lemma load_questions_only_name_witness :
  ∃ qs',
    load_questions
      (H := Demo.host
              (Exports (Mapping [ ("name", Demo.ask NoDefault);
                                  ("port", Demo.ask (Literal "7001")) ])) [] ∅)
      "/home/egg-shop" "/tpl" = Ok qs' ∧
    qs'.*1 = ["name"; "port"] ∧
    (∀ key, key ≠ "name" →
       question_of key qs'
       = question_of key [ ("name", Demo.ask NoDefault);
                           ("port", Demo.ask (Literal "7001")) ]) ∧
    question_of "name" qs' = Some (Demo.ask (Literal "shop")).
Proof.
  apply (load_questions_only_name
           (H := Demo.host
                   (Exports (Mapping [ ("name", Demo.ask NoDefault);
                                       ("port", Demo.ask (Literal "7001")) ]))
                   [] ∅)
           "/home/egg-shop" "/tpl"
           [ ("name", Demo.ask NoDefault); ("port", Demo.ask (Literal "7001")) ]).
  by left.
Defined.

(** ** The scope of silent mode *)

(** What a round of the reducer leaves: the scope as it was under the
    key [__proto__], and the scope with the value of the question under
    every other key. *)
Lemma silent_step_result `{Host} scope key q result :
  silent_step scope (key, q) = Ok result →
  if decide (key = "__proto__") then result = scope
  else ∃ v, silent_value scope q = Ok v ∧ result = <[key := v]> scope.
Proof.
  destruct (decide (key = "__proto__")) as [->|Hkey].
  - rewrite silent_step_proto.
    destruct (match q_default q with Derived f => f scope | _ => Ok None end);
      cbn; [|done].
    destruct (match q_filter q with Some g => g VObjectPrototype | None => Ok None end);
      cbn; [|done].
    by intros [= <-].
  - rewrite silent_step_value by done.
    destruct (silent_value scope q) as [v|e]; cbn; [|done].
    intros [= <-]. by exists v.
Qed.

Lemma reduce_silent_dom `{Host} (qs : questions) : ∀ scope result,
  reduce silent_step scope qs = Ok result →
  dom result = dom scope ∪ (list_to_set qs.*1 ∖ {["__proto__"]}).
Proof.
  induction qs as [|[key q] qs IH]; intros scope result Hres.
  - injection Hres as <-. cbn. apply set_eq. intros x.
    rewrite elem_of_union, elem_of_difference, elem_of_empty. tauto.
  - cbn [reduce] in Hres.
    destruct (silent_step scope (key, q)) as [scope'|e] eqn:Hstep; [|done].
    cbn in Hres. rewrite (IH _ _ Hres). apply silent_step_result in Hstep.
    apply set_eq. intros x. cbn.
    rewrite !elem_of_union, !elem_of_difference, elem_of_union,
      !elem_of_singleton.
    destruct (decide (key = "__proto__")) as [->|Hkey].
    + subst scope'. tauto.
    + destruct Hstep as (v & _ & ->).
      rewrite dom_insert_L, elem_of_union, elem_of_singleton.
      destruct (decide (x = key)) as [->|]; tauto.
Qed.

Lemma reduce_silent_later `{Host} (qs : questions) : ∀ scope result key,
  reduce silent_step scope qs = Ok result → key ∉ qs.*1 →
  result !! key = scope !! key.
Proof.
  induction qs as [|[k q] qs IH]; intros scope result key Hres Hkey.
  - by injection Hres as <-.
  - cbn [reduce] in Hres.
    destruct (silent_step scope (k, q)) as [scope'|e] eqn:Hstep; [|done].
    cbn in Hres, Hkey. apply not_elem_of_cons in Hkey as [Hne Hkey].
    rewrite (IH _ _ _ Hres Hkey). apply silent_step_result in Hstep.
    destruct (decide (k = "__proto__")); [by subst scope'|].
    destruct Hstep as (v & _ & ->). by apply lookup_insert_ne.
Qed.

Lemma askForVariable_silent_ok `{Host} a targetDir templateDir qs t scope :
  argv_silent a = true →
  load_questions targetDir templateDir = Ok qs →
  askForVariable a targetDir templateDir = (t, Ok scope) →
  reduce silent_step ∅ qs = Ok scope.
Proof.
  intros Hsilent Hload. unfold askForVariable.
  rewrite Hload, Hsilent.
  destruct (reduce silent_step ∅ qs) as [r|e]; [|done].
  by intros [= _ ->].
Qed.

(** X10: in silent mode the scope defines exactly the names of the
    questions other than [__proto__]: every such question gets a value,
    be it the empty string, and nothing else is defined. *)
Theorem askForVariable_silent_names `{Host} (a : argv)
    (targetDir templateDir : string) (qs : questions) (t : list event)
    (scope : gmap string string) :
  argv_silent a = true →
  load_questions targetDir templateDir = Ok qs →
  askForVariable a targetDir templateDir = (t, Ok scope) →
  dom scope = list_to_set qs.*1 ∖ {["__proto__"]}.
Proof.
  intros Hsilent Hload Hrun.
  rewrite (reduce_silent_dom qs ∅ scope).
  - by rewrite dom_empty_L, (left_id_L ∅ (∪)).
  - by eapply askForVariable_silent_ok.
Qed.

Lemma askForVariable_silent_names_witness :
  dom ({[ "a" := "base"; "b" := "basex" ]} : gmap string string)
  = list_to_set ["a"; "b"] ∖ {["__proto__"]}.
Proof.
  apply (askForVariable_silent_names (H := Demo.forward) Demo.silently
           "/home/app" "/tpl"
           [ ("a", Demo.ask (Literal "base"));
             ("b", Demo.ask (Derived (λ scope,
                      Ok (Some (default "undefined" (scope !! "a") +:+ "x"))))) ]
           [ EvLog Collecting;
             EvLog (UseDefault {[ "a" := "base"; "b" := "basex" ]}) ]).
  - reflexivity.
  - reflexivity.
  - vm_compute. reflexivity.
Defined.

(** X11: in silent mode a question with a literal default and no
    filter, under a key other than [__proto__], gets that literal,
    unchanged, whatever the other questions are. *)
Theorem askForVariable_silent_literal `{Host} (a : argv)
    (targetDir templateDir : string) (qs : questions) (t : list event)
    (scope : gmap string string) (key value : string) (q : question) :
  argv_silent a = true →
  load_questions targetDir templateDir = Ok qs →
  askForVariable a targetDir templateDir = (t, Ok scope) →
  NoDup qs.*1 →
  (key, q) ∈ qs →
  key ≠ "__proto__" →
  q_default q = Literal value →
  q_filter q = None →
  scope !! key = Some value.
Proof.
  intros Hsilent Hload Hrun Hnd Hin Hkey Hdef Hfil.
  pose proof (askForVariable_silent_ok _ _ _ _ _ _ Hsilent Hload Hrun) as Hres.
  clear Hrun Hload. revert Hres Hnd Hin. generalize (∅ : gmap string string).
  induction qs as [|[k q'] qs IH]; intros scope0 Hres Hnd Hin.
  - by apply elem_of_nil in Hin.
  - cbn in Hnd. apply NoDup_cons in Hnd as [Hk Hnd].
    cbn [reduce] in Hres.
    destruct (silent_step scope0 (k, q')) as [scope'|e] eqn:Hstep; [|done].
    cbn in Hres.
    apply elem_of_cons in Hin as [[= -> ->]|Hin].
    + rewrite (reduce_silent_later _ _ _ _ Hres Hk).
      apply silent_step_result in Hstep. rewrite decide_False in Hstep by done.
      destruct Hstep as (v & Hv & ->).
      unfold silent_value in Hv. rewrite Hdef, Hfil in Hv. cbn in Hv.
      injection Hv as <-. apply lookup_insert_eq.
    + by eapply IH.
Qed.

Lemma askForVariable_silent_literal_witness :
  ({[ "a" := "base"; "b" := "basex" ]} : gmap string string) !! "a" = Some "base".
Proof.
  apply (askForVariable_silent_literal (H := Demo.forward) Demo.silently
           "/home/app" "/tpl"
           [ ("a", Demo.ask (Literal "base"));
             ("b", Demo.ask (Derived (λ scope,
                      Ok (Some (default "undefined" (scope !! "a") +:+ "x"))))) ]
           [ EvLog Collecting;
             EvLog (UseDefault {[ "a" := "base"; "b" := "basex" ]}) ]
           {[ "a" := "base"; "b" := "basex" ]} "a" "base"
           (Demo.ask (Literal "base"))).
  - reflexivity.
  - reflexivity.
  - vm_compute. reflexivity.
  - repeat constructor.
    + intros Hin. apply elem_of_cons in Hin as [Hin|Hin]; [discriminate|].
      by apply elem_of_nil in Hin.
    + intros Hin. by apply elem_of_nil in Hin.
  - left.
  - discriminate.
  - reflexivity.
  - reflexivity.
Defined.

(** ** What validation does to the disk *)

Lemma validate_cases force dir (disk : gmap string stat) :
  (disk !! dir = None ∧
   validate force dir disk
   = (Accept, <[dir := IsDirectory []]> disk, [EvMkdirp dir])) ∨
  (∃ names, disk !! dir = Some (IsDirectory names) ∧
            (force = false → List.filter visible names = []) ∧
            ∃ t, validate force dir disk = (Accept, disk, t) ∧
                 Forall (λ ev, ∃ l, ev = EvLog l) t) ∨
  (∃ why, validate force dir disk = (Reject why, disk, [])).
Proof.
  unfold validate. destruct (disk !! dir) as [[|names]|] eqn:Hdir.
  - right. right. by eexists.
  - destruct (List.filter visible names) as [|name files] eqn:Hfiles.
    + right. left. exists names. split; [done|]. split; [done|].
      exists []. by split.
    + cbn. destruct force.
      * right. left. exists names. split; [done|]. split; [done|].
        eexists. split; [done|]. repeat constructor. by eexists.
      * right. right. by eexists.
  - left. done.
Qed.

(** X12: an accepted directory stays accepted: validating it again accepts
    it, changes nothing on the disk and creates nothing. *)
Theorem validate_accept_stable (force : bool) (dir : string)
    (disk disk' : gmap string stat) (t : list event) :
  validate force dir disk = (Accept, disk', t) →
  ∃ t', validate force dir disk' = (Accept, disk', t') ∧
        EvMkdirp dir ∉ t'.
Proof.
  intros Hv.
  destruct (validate_cases force dir disk)
    as [[Hnone Hrun]|[(names & Hdir & Hempty & t1 & Hrun & Hlog)|[why Hrun]]];
    rewrite Hrun in Hv; try done; injection Hv as <- <-.
  - exists []. split; [|by intros ?%elem_of_nil].
    unfold validate. by rewrite lookup_insert_eq.
  - exists t1. split; [done|].
    intros Hin. rewrite Forall_forall in Hlog.
    by destruct (Hlog _ Hin).
Qed.

Lemma validate_accept_stable_witness :
  ∃ t', validate false "/home/new" (<["/home/new" := IsDirectory []]> Demo.disk)
        = (Accept, <["/home/new" := IsDirectory []]> Demo.disk, t') ∧
        EvMkdirp "/home/new" ∉ t'.
Proof.
  apply (validate_accept_stable false "/home/new" Demo.disk
           (<["/home/new" := IsDirectory []]> Demo.disk) [EvMkdirp "/home/new"]).
  vm_compute. reflexivity.
Defined.

Section TargetProperties.
Context `{Host}.

Lemma prompt_dir_result force cwd dflt typed : ∀ (disk : gmap string stat) answer disk' t,
  prompt_dir force cwd dflt typed disk = (answer, disk', t) →
  match answer with
  | Some dir =>
      ∃ names, disk' !! dir = Some (IsDirectory names) ∧
               (force = false → List.filter visible names = [])
  | None => disk' = disk
  end.
Proof.
  induction typed as [|line typed IH]; intros disk answer disk' t Hrun.
  - by injection Hrun as <- <- <-.
  - cbn [prompt_dir] in Hrun.
    set (dir := path_resolve cwd match line with "" => dflt | _ => line end) in *.
    destruct (validate_cases force dir disk)
      as [[Hnone Hv]|[(names & Hdir & Hempty & t1 & Hv & _)|[why Hv]]];
      rewrite Hv in Hrun.
    + injection Hrun as <- <- <-.
      exists []. by rewrite lookup_insert_eq.
    + injection Hrun as <- <- <-. by exists names.
    + destruct (prompt_dir force cwd dflt typed disk) as [[answer' disk''] t'] eqn:Hrest.
      injection Hrun as <- <- <-. by apply (IH _ _ _ _ Hrest).
Qed.

(** A prompt that is left without an answer has created nothing. *)
Lemma prompt_dir_none force cwd dflt typed : ∀ (disk disk' : gmap string stat) t dir,
  prompt_dir force cwd dflt typed disk = (None, disk', t) →
  EvMkdirp dir ∉ t.
Proof.
  induction typed as [|line typed IH]; intros disk disk' t dir Hrun.
  - injection Hrun as <- <-. apply not_elem_of_nil.
  - cbn [prompt_dir] in Hrun.
    set (dir' := path_resolve cwd match line with "" => dflt | _ => line end) in *.
    destruct (validate_cases force dir' disk)
      as [[Hnone Hv]|[(names & Hdir & Hempty & t1 & Hv & _)|[why Hv]]];
      rewrite Hv in Hrun; [done..|].
    destruct (prompt_dir force cwd dflt typed disk) as [[answer' disk''] t'] eqn:Hrest.
    injection Hrun as -> <- <-. cbn [app]. by eapply IH.
Qed.

End TargetProperties.

(** X13: whatever is typed at the prompt, the directory that
    [getTargetDirectory] returns exists as a directory, without visible
    entries unless [force] is set.  When no directory is returned,
    nothing was created. *)
Theorem getTargetDirectory_result `{Host} (a : argv) (typed : list string)
    (disk disk' : gmap string stat) (answer : option string) (t : list event) :
  getTargetDirectory a typed disk = (answer, disk', t) →
  match answer with
  | Some dir =>
      ∃ names, disk' !! dir = Some (IsDirectory names) ∧
               (argv_force a = false → List.filter visible names = [])
  | None => disk' = disk ∧ ∀ dir, EvMkdirp dir ∉ t
  end.
Proof.
  unfold getTargetDirectory. fold (requested a).
  destruct (validate_cases (argv_force a) (requested a) disk)
    as [[Hnone Hv]|[(names & Hdir & Hempty & t1 & Hv & _)|[why Hv]]];
    rewrite Hv.
  - intros [= <- <- <-]. exists []. by rewrite lookup_insert_eq.
  - intros [= <- <- <-]. by exists names.
  - destruct (prompt_dir _ _ _ typed disk) as [[answer' disk''] t'] eqn:Hrest.
    intros [= <- <- <-].
    pose proof (prompt_dir_result _ _ _ _ _ _ _ _ Hrest) as Hresult.
    destruct answer' as [dir|]; [done|]. split; [done|].
    intros dir. cbn [app]. rewrite app_nil_r.
    intros Hin. repeat (apply elem_of_cons in Hin as [Hin|Hin]; [done|]).
    by eapply prompt_dir_none.
Qed.

Lemma getTargetDirectory_result_witness :
  ∃ names,
    (<["/home/shop" := IsDirectory []]> Demo.disk) !! "/home/shop"
    = Some (IsDirectory names) ∧
    (false = false → List.filter visible names = []).
Proof.
  apply (getTargetDirectory_result (H := Demo.hello) (Demo.argv_of "app" false)
           ["notes"; "shop"] Demo.disk
           (<["/home/shop" := IsDirectory []]> Demo.disk) (Some "/home/shop")
           [ EvLog (Invalid (NotEmpty "/home/app" ["package.json"]));
             EvPromptDir "app"; EvMkdirp "/home/shop";
             EvLog (TargetDir "/home/shop") ]).
  vm_compute. reflexivity.
Defined.

(** ** [getRegistryByType] *)

Lemma strip_slash_spec s :
  (strip_slash s = s ∧ Str.last s ≠ Some "/"%char) ∨ s = strip_slash s +:+ "/".
Proof.
  induction s as [|a s IH]; [by left|].
  destruct s as [|b s].
  - cbn. destruct (Ascii.eqb_spec a "/") as [->|Hne]; [by right|].
    left. split; [done|]. by intros [= ->].
  - change (strip_slash (String a (String b s)))
      with (String a (strip_slash (String b s))).
    change (Str.last (String a (String b s))) with (Str.last (String b s)).
    destruct IH as [[-> Hlast]|Heq]; [by left|].
    right. cbn [append]. by rewrite <- Heq.
Qed.

(** X14: for a key that is none of the three short names, the registry
    URL is the URL that it is taken from, without one slash at its end
    when it ends with one and as it is otherwise; that URL is the key
    when the key starts with [http:] or [https:], and otherwise one of
    the two environment variables or the address of npmjs. *)
Theorem getRegistryByType_slash `{Host} (env : settings)
    (disk : gmap string stat) (key : option string) :
  (key ∉ [Some "china"; Some "npm"; Some "netease"]) →
  ∃ given,
    (is_url (default "undefined" key) = true → key = Some given) ∧
    (is_url (default "undefined" key) = false →
       npm_registry env = Some given ∨ npm_config_registry env = Some given ∨
       given = "https://registry.npmjs.org") ∧
    (given = getRegistryByType env disk key +:+ "/" ∨
     (given = getRegistryByType env disk key ∧ Str.last given ≠ Some "/"%char)).
Proof.
  intros Hkey.
  assert (key ≠ Some "china" ∧ key ≠ Some "npm" ∧ key ≠ Some "netease")
    as (? & ? & ?).
  { repeat split; intros ->; apply Hkey; [left | right; left | right; right; left]. }
  assert (∀ s, s = strip_slash s +:+ "/" ∨
               (s = strip_slash s ∧ Str.last s ≠ Some "/"%char)) as Hstrip.
  { intros s. destruct (strip_slash_spec s) as [[Heq Hlast]|Heq]; [right | by left].
    by rewrite Heq. }
  unfold getRegistryByType. rewrite !decide_False by done.
  destruct (is_url (default "undefined" key)) eqn:Hurl.
  - destruct key as [k|]; [|done]. cbn [default]. exists k.
    split; [done|]. split; [done|]. apply Hstrip.
  - cbn zeta.
    destruct (existsSync disk _ || existsSync disk _).
    { exists "https://registry.npmjs.org". split; [done|].
      split; [by intros _; right; right|]. apply Hstrip. }
    destruct (npm_registry env) as [[|a u]|] eqn:Hr.
    2:{ exists (String a u). split; [done|]. split; [by intros _; left|].
        apply Hstrip. }
    all: destruct (npm_config_registry env) as [[|b v]|] eqn:Hc.
    all: try (exists "https://registry.npmjs.org"; split; [done|];
              split; [by intros _; right; right|]; apply Hstrip).
    all: exists (String b v); split; [done|];
      (split; [by intros _; right; left|]); apply Hstrip.
Qed.

Lemma getRegistryByType_slash_witness :
  ∃ given,
    (is_url "https://example.com//" = true →
     Some "https://example.com//" = Some given) ∧
    (is_url "https://example.com//" = false →
     None = Some given ∨ None = Some given ∨
     given = "https://registry.npmjs.org") ∧
    (given = "https://example.com/" +:+ "/" ∨
     (given = "https://example.com/" ∧ Str.last given ≠ Some "/"%char)).
Proof.
  apply (getRegistryByType_slash (H := Demo.hello)
           {| npm_registry := None; npm_config_registry := None;
              homedir := "/home" |} ∅ (Some "https://example.com//")).
  intros Hin. repeat (apply elem_of_cons in Hin as [Hin|Hin]; [discriminate|]).
  by apply elem_of_nil in Hin.
Defined.

Example getRegistryByType_literal :
  getRegistryByType (H := Demo.hello)
    {| npm_registry := Some "https://mirror.example/"; npm_config_registry := None;
       homedir := "/home" |} ∅ (Some "https://example.com/")
  = "https://example.com".
Proof. vm_compute. reflexivity. Qed.

(** X15: a key that is neither one of the three short names nor a text that
    starts with [http:] or [https:] is ignored without an error: the
    result is the one of any other such key, an absent key included. *)
Theorem getRegistryByType_unknown `{Host} (env : settings)
    (disk : gmap string stat) (key key' : option string) :
  key ∉ [Some "china"; Some "npm"; Some "netease"] →
  key' ∉ [Some "china"; Some "npm"; Some "netease"] →
  is_url (default "undefined" key) = false →
  is_url (default "undefined" key') = false →
  getRegistryByType env disk key = getRegistryByType env disk key'.
Proof.
  intros Hk Hk' Hu Hu'. unfold getRegistryByType.
  assert (∀ k : option string,
            k ∉ [Some "china"; Some "npm"; Some "netease"] →
            k ≠ Some "china" ∧ k ≠ Some "npm" ∧ k ≠ Some "netease") as Hne.
  { intros k Hnot. repeat split; intros ->; apply Hnot;
      [left | right; left | right; right; left]. }
  destruct (Hne _ Hk) as (? & ? & ?). destruct (Hne _ Hk') as (? & ? & ?).
  rewrite !decide_False by done.
  by rewrite Hu, Hu'.
Qed.

Lemma getRegistryByType_unknown_witness :
  getRegistryByType (H := Demo.hello)
    {| npm_registry := Some "https://mirror.example/"; npm_config_registry := None;
       homedir := "/home" |} ∅ (Some "HTTPS://example.com")
  = getRegistryByType (H := Demo.hello)
      {| npm_registry := Some "https://mirror.example/"; npm_config_registry := None;
         homedir := "/home" |} ∅ None.
Proof.
  assert (∀ k : option string, k ≠ Some "china" → k ≠ Some "npm" →
            k ≠ Some "netease" →
            k ∉ [Some "china"; Some "npm"; Some "netease"]) as Hnot.
  { intros k H1 H2 H3 Hin.
    repeat (apply elem_of_cons in Hin as [Hin|Hin]; [done|]).
    by apply elem_of_nil in Hin. }
  apply getRegistryByType_unknown; [by apply Hnot.. | reflexivity | reflexivity].
Defined.

(** ** The registry and its fallback *)

Section SourceProperties.
Context `{Host} `{Remote}.

Lemma fetch_bind_ok {A B} (f : A → fetch B) t a :
  ((t, Ok a) ≫= f) = (t ++ (f a).1, (f a).2).
Proof. unfold mbind, fetch_bind. by destruct (f a). Qed.

(** The three ways [getPackageInfo] ends. *)
Lemma getPackageInfo_run pkgName withFallback :
  let url := registryUrl +:+ "/" +:+ pkgName +:+ "/latest" in
  let manifest := pkgName +:+ "/package.json" in
  getPackageInfo pkgName withFallback
  = match remote_data pkgName with
    | Some data => ([SrcLog (FetchingInfo pkgName); Curl (Some url)], Ok data)
    | None =>
        if withFallback
        then ([ SrcLog (FetchingInfo pkgName); Curl (Some url);
                SrcLog (UseFallback pkgName); RequireManifest manifest ],
              require_manifest manifest)
        else ([SrcLog (FetchingInfo pkgName); Curl (Some url)],
              (getPackageInfo pkgName false).2)
    end.
Proof.
  cbn zeta. unfold getPackageInfo, remote_data.
  destruct (curl_json _) as [[status [data|]]|e]; cbn [res_status res_data];
    try destruct (decide (status = 200%Z)); destruct withFallback; cbn;
    rewrite ?decide_True, ?decide_False by done; cbn; try done;
    by destruct (require_manifest _).
Qed.

Lemma getPackageInfo_false_throws pkgName :
  remote_data pkgName = None → ∃ e, (getPackageInfo pkgName false).2 = Throw e.
Proof.
  unfold getPackageInfo, remote_data.
  destruct (curl_json _) as [[status [data|]]|e]; cbn [res_status res_data];
    try destruct (decide (status = 200%Z)); try done; intros _; cbn;
    rewrite ?decide_False by done; cbn; by eexists.
Qed.

End SourceProperties.

(** X16: [getPackageInfo] returns the registry's package exactly when the
    registry answered 200 with a body.  With the fallback, any other
    answer, or a failed request, is replaced by the local manifest: the
    error of the registry never reaches the caller, and the call fails
    only with the error of loading that manifest.  Without the fallback
    the manifest is never loaded. *)
Theorem getPackageInfo_fallback `{Remote} (pkgName : string) :
  (∀ withFallback data,
     remote_data pkgName = Some data →
     (getPackageInfo pkgName withFallback).2 = Ok data) ∧
  (remote_data pkgName = None →
     (getPackageInfo pkgName true).2
     = require_manifest (pkgName +:+ "/package.json") ∧
     ∃ e, (getPackageInfo pkgName false).2 = Throw e) ∧
  (∀ path, RequireManifest path ∉ (getPackageInfo pkgName false).1).
Proof.
  split; [|split].
  - intros withFallback data Hdata.
    rewrite getPackageInfo_run. cbn zeta. by rewrite Hdata.
  - intros Hnone. split; [|by apply getPackageInfo_false_throws].
    rewrite getPackageInfo_run. cbn zeta. by rewrite Hnone.
  - intros path. rewrite getPackageInfo_run. cbn zeta.
    destruct (remote_data pkgName); cbn [fst];
      intros Hin; repeat (apply elem_of_cons in Hin as [Hin|Hin]; [done|]);
      by apply elem_of_nil in Hin.
Qed.

Lemma getPackageInfo_fallback_witness :
  (getPackageInfo (H0 := Sample.offline) "akos-boilerplate-init-config" true).2
  = Ok Sample.config ∧
  ∃ e, (getPackageInfo (H0 := Sample.offline) "akos-boilerplate-init-config" false).2
       = Throw e.
Proof.
  destruct (getPackageInfo_fallback (H := Sample.offline)
              "akos-boilerplate-init-config") as (_ & Hoff & _).
  apply Hoff. reflexivity.
Defined.

(** ** [downloadBoilerplate] *)

Section DownloadProperties.
Context `{Host} `{Remote}.

(** The events of the lookup that opens [downloadBoilerplate]. *)
Lemma downloadBoilerplate_lookup_fails pkgName :
  remote_data pkgName = None →
  ∃ e, downloadBoilerplate pkgName
       = ([ SrcLog (FetchingInfo pkgName);
            Curl (Some (registryUrl +:+ "/" +:+ pkgName +:+ "/latest")) ],
          Throw e).
Proof.
  intros Hnone. unfold downloadBoilerplate.
  destruct (getPackageInfo_false_throws pkgName Hnone) as [e He].
  pose proof (getPackageInfo_run pkgName false) as Hrun.
  cbn zeta in Hrun. rewrite Hnone in Hrun. rewrite Hrun, He.
  by exists e.
Qed.

Lemma downloadBoilerplate_found pkgName data :
  remote_data pkgName = Some data →
  downloadBoilerplate pkgName
  = (([ SrcLog (FetchingInfo pkgName);
        Curl (Some (registryUrl +:+ "/" +:+ pkgName +:+ "/latest")) ], Ok data)
     ≫= λ result,
       match pk_dist result with
       | None => call (Throw (TypeError_read "tarball"))
       | Some tgzUrl =>
           tell (SrcLog (Downloading tgzUrl));;
           let saveDir := saveDir_of pkgName in
           tell (Rimraf saveDir);;
           call (rimraf saveDir);;
           tell (Curl tgzUrl);;
           response ← call (curl_stream tgzUrl);
           tell (Uncompress saveDir);;
           call (uncompress response saveDir);;
           tell (SrcLog (ExtractTo saveDir));;
           mret (path_join saveDir "/package")
       end).
Proof.
  intros Hdata. unfold downloadBoilerplate.
  pose proof (getPackageInfo_run pkgName false) as Hrun.
  cbn zeta in Hrun. rewrite Hdata in Hrun. by rewrite Hrun.
Qed.

End DownloadProperties.

(** Runs every collaborator of the download and computes. *)
Ltac download_cases pkgName :=
  cbn;
  destruct (rimraf (saveDir_of pkgName)) as [[]|?]; cbn;
  [ match goal with
    | |- context [curl_stream ?u] =>
        destruct (curl_stream u) as [archive|?]; cbn;
        [ destruct (uncompress archive (saveDir_of pkgName)) as [[]|?]; cbn | ]
    end
  | ].

(** X17: [downloadBoilerplate] removes a directory exactly when the
    registry has served the package and the package has a [dist]; it
    then removes the directory of that package under the temporary
    directory and nothing else.  The removal comes before the download:
    it has happened also when the download or the extraction fails
    afterwards.  The local manifest is never loaded. *)
Theorem downloadBoilerplate_rimraf `{Host} `{Remote} (pkgName dir : string) :
  (Rimraf dir ∈ (downloadBoilerplate pkgName).1 ↔
   dir = saveDir_of pkgName ∧
   ∃ data tgzUrl, remote_data pkgName = Some data ∧ pk_dist data = Some tgzUrl) ∧
  (∀ path, RequireManifest path ∉ (downloadBoilerplate pkgName).1).
Proof.
  destruct (remote_data pkgName) as [data|] eqn:Hdata.
  - rewrite (downloadBoilerplate_found pkgName data Hdata), fetch_bind_ok.
    destruct (pk_dist data) as [tgzUrl|] eqn:Hdist.
    + split.
      * split.
        -- intros Hin. split; [|by eauto].
           revert Hin. download_cases pkgName; intros Hin;
             repeat (apply elem_of_cons in Hin as [Hin|Hin];
                     [by (discriminate || injection Hin as ->)|]);
             by apply elem_of_nil in Hin.
        -- intros [-> _]. download_cases pkgName;
             do 3 right; left.
      * intros path. download_cases pkgName; intros Hin;
          repeat (apply elem_of_cons in Hin as [Hin|Hin]; [done|]);
          by apply elem_of_nil in Hin.
    + split.
      * split.
        -- cbn. intros Hin.
           repeat (apply elem_of_cons in Hin as [Hin|Hin]; [done|]).
           by apply elem_of_nil in Hin.
        -- intros (_ & data' & tgzUrl & [= <-] & Hdist'). congruence.
      * intros path. cbn. intros Hin.
        repeat (apply elem_of_cons in Hin as [Hin|Hin]; [done|]).
        by apply elem_of_nil in Hin.
  - destruct (downloadBoilerplate_lookup_fails pkgName Hdata) as [e ->].
    split.
    + split.
      * cbn. intros Hin.
        repeat (apply elem_of_cons in Hin as [Hin|Hin]; [done|]).
        by apply elem_of_nil in Hin.
      * by intros (_ & data' & tgzUrl & [=] & _).
    + intros path. cbn. intros Hin.
      repeat (apply elem_of_cons in Hin as [Hin|Hin]; [done|]).
      by apply elem_of_nil in Hin.
Qed.

Lemma downloadBoilerplate_rimraf_witness :
  (downloadBoilerplate (H := Demo.hello) (H0 := Sample.flaky) "simple").2
  = Throw (Thrown (Some "ECONNRESET") "socket hang up") ∧
  Rimraf "/tmp/akos-boilerplate-init-config/simple"
  ∈ (downloadBoilerplate (H := Demo.hello) (H0 := Sample.flaky) "simple").1.
Proof.
  split; [reflexivity|].
  apply (downloadBoilerplate_rimraf (H := Demo.hello) (H0 := Sample.flaky) "simple").
  split; [reflexivity|].
  exists Sample.config, (Some "https://registry.example/config.tgz").
  split; reflexivity.
Defined.

(** X18: when [downloadBoilerplate] returns, it returns the [package] folder
    inside the directory of the package under the temporary directory,
    and it has, in this order, looked the package up, removed that
    directory, downloaded the tarball that the registry named and
    extracted it there. *)
Theorem downloadBoilerplate_returns `{Host} `{Remote} (pkgName dir : string)
    (t : list source_event) :
  downloadBoilerplate pkgName = (t, Ok dir) →
  dir = path_join (saveDir_of pkgName) "/package" ∧
  ∃ data tgzUrl,
    remote_data pkgName = Some data ∧ pk_dist data = Some tgzUrl ∧
    t = [ SrcLog (FetchingInfo pkgName);
          Curl (Some (registryUrl +:+ "/" +:+ pkgName +:+ "/latest"));
          SrcLog (Downloading tgzUrl);
          Rimraf (saveDir_of pkgName);
          Curl tgzUrl;
          Uncompress (saveDir_of pkgName);
          SrcLog (ExtractTo (saveDir_of pkgName)) ].
Proof.
  destruct (remote_data pkgName) as [data|] eqn:Hdata.
  - rewrite (downloadBoilerplate_found pkgName data Hdata), fetch_bind_ok.
    destruct (pk_dist data) as [tgzUrl|] eqn:Hdist; [|done].
    download_cases pkgName; intros [= <- <-]. split; [done|].
    by exists data, tgzUrl.
  - by destruct (downloadBoilerplate_lookup_fails pkgName Hdata) as [e ->].
Qed.

Lemma downloadBoilerplate_returns_witness :
  downloadBoilerplate (H := Demo.hello) (H0 := Sample.online) "simple"
  = ([ SrcLog (FetchingInfo "simple");
       Curl (Some "https://registry.npmjs.org/simple/latest");
       SrcLog (Downloading (Some "https://registry.example/config.tgz"));
       Rimraf "/tmp/akos-boilerplate-init-config/simple";
       Curl (Some "https://registry.example/config.tgz");
       Uncompress "/tmp/akos-boilerplate-init-config/simple";
       SrcLog (ExtractTo "/tmp/akos-boilerplate-init-config/simple") ],
     Ok "/tmp/akos-boilerplate-init-config/simple//package") ∧
  "/tmp/akos-boilerplate-init-config/simple//package"
  = path_join (Host := Demo.hello)
      (saveDir_of (H := Demo.hello) (H0 := Sample.online) "simple") "/package".
Proof.
  split; [vm_compute; reflexivity|].
  apply (downloadBoilerplate_returns (H := Demo.hello) (H0 := Sample.online)
           "simple" _
           [ SrcLog (FetchingInfo "simple");
             Curl (Some "https://registry.npmjs.org/simple/latest");
             SrcLog (Downloading (Some "https://registry.example/config.tgz"));
             Rimraf "/tmp/akos-boilerplate-init-config/simple";
             Curl (Some "https://registry.example/config.tgz");
             Uncompress "/tmp/akos-boilerplate-init-config/simple";
             SrcLog (ExtractTo "/tmp/akos-boilerplate-init-config/simple") ]).
  vm_compute. reflexivity.
Defined.

(** ** [fetchBoilerplateMapping] *)

(** X19: the mapping that [fetchBoilerplateMapping] returns has the
    keys of the mapping of the kind asked in the [config] of the package
    ([config[type]] for [client] and [server], [config.boilerplate]
    otherwise).  Every item keeps its package, description, category
    and deprecation notice; it keeps its own name when that is not
    empty and takes its key as name otherwise; and it refers to the
    package. *)
Theorem fetchBoilerplateMapping_named `{Remote} (pkgName type : option string)
    (t : list source_event) (mapping : gmap string boilerplate) :
  fetchBoilerplateMapping pkgName type = (t, Ok mapping) →
  ∃ pkgInfo config served,
    (getPackageInfo (name_or pkgName configName) true).2 = Ok pkgInfo ∧
    pk_config pkgInfo = Some config ∧
    config !! (if decide (type = Some "client" ∨ type = Some "server")
               then default "" type else "boilerplate") = Some served ∧
    ∀ key,
      mapping !! key
      = (λ item,
           {| bp_name := Some match bp_name item with
                              | Some (String c name) => String c name
                              | _ => key
                              end;
              bp_package := bp_package item;
              bp_description := bp_description item;
              bp_category := bp_category item;
              bp_deprecate := bp_deprecate item;
              bp_from := Some (name_or pkgName configName) |}) <$> served !! key.
Proof.
  unfold fetchBoilerplateMapping.
  destruct (getPackageInfo (name_or pkgName configName) true) as [t0 [pkgInfo|e]];
    [|done].
  rewrite fetch_bind_ok.
  destruct (pk_config pkgInfo) as [config|] eqn:Hconfig; [|done].
  destruct (decide (type = Some "client" ∨ type = Some "server")) as [Htype|Htype].
  - destruct (config !! default "" type) as [served|] eqn:Hserved; [|done].
    cbn. intros [= _ <-]. exists pkgInfo, config, served.
    split_and!; [done..|]. intros key. rewrite map_lookup_imap.
    destruct (served !! key) as [item|]; [|done]. cbn. unfold named, name_or.
    by destruct (bp_name item) as [[|??]|].
  - destruct (config !! "boilerplate") as [served|] eqn:Hserved; [|done].
    cbn. intros [= _ <-]. exists pkgInfo, config, served.
    split_and!; [done..|]. intros key. rewrite map_lookup_imap.
    destruct (served !! key) as [item|]; [|done]. cbn. unfold named, name_or.
    by destruct (bp_name item) as [[|??]|].
Qed.

Lemma fetchBoilerplateMapping_named_witness :
  ∃ pkgInfo config served,
    (getPackageInfo (H0 := Sample.offline) (name_or None configName) true).2
    = Ok pkgInfo ∧
    pk_config pkgInfo = Some config ∧
    config !! "boilerplate" = Some served ∧
    ∀ key,
      ({[ "simple" := named configName "simple" Sample.simple;
          "legacy" := named configName "legacy" Sample.legacy ]}
         : gmap string boilerplate) !! key
      = (λ item,
           {| bp_name := Some match bp_name item with
                              | Some (String c name) => String c name
                              | _ => key
                              end;
              bp_package := bp_package item;
              bp_description := bp_description item;
              bp_category := bp_category item;
              bp_deprecate := bp_deprecate item;
              bp_from := Some (name_or None configName) |}) <$> served !! key.
Proof.
  apply (fetchBoilerplateMapping_named (H := Sample.offline) None (Some "web")
           (fetchBoilerplateMapping (H0 := Sample.offline) None (Some "web")).1).
  vm_compute. reflexivity.
Defined.

(** X20: a failure of the registry alone never fails
    [fetchBoilerplateMapping]: it fails with the error of loading the
    local manifest when the registry served no package, or because the
    package it got has no [config] or no mapping of the kind asked. *)
Theorem fetchBoilerplateMapping_throws `{Remote} (pkgName type : option string)
    (e : js_error) :
  (fetchBoilerplateMapping pkgName type).2 = Throw e →
  (remote_data (name_or pkgName configName) = None ∧
   require_manifest (name_or pkgName configName +:+ "/package.json") = Throw e) ∨
  e = TypeError_read "boilerplate" ∨
  e = Thrown None "Cannot convert undefined or null to object".
Proof.
  unfold fetchBoilerplateMapping.
  pose proof (getPackageInfo_run (name_or pkgName configName) true) as Hrun.
  cbn zeta in Hrun. rewrite Hrun. clear Hrun.
  destruct (remote_data (name_or pkgName configName)) as [data|].
  - rewrite fetch_bind_ok.
    destruct (pk_config data) as [config|]; [|intros [= <-]; by right; left].
    destruct (if decide (type = Some "client" ∨ type = Some "server")
              then config !! default "" type else config !! "boilerplate");
      [done | intros [= <-]; by right; right].
  - destruct (require_manifest _) as [data|e'].
    + rewrite fetch_bind_ok.
      destruct (pk_config data) as [config|]; [|intros [= <-]; by right; left].
      destruct (if decide (type = Some "client" ∨ type = Some "server")
                then config !! default "" type else config !! "boilerplate");
        [done | intros [= <-]; by right; right].
    + intros [= <-]. by left.
Qed.

Lemma fetchBoilerplateMapping_throws_witness :
  (fetchBoilerplateMapping (H0 := Sample.online) None (Some "client")).2
  = Throw (Thrown None "Cannot convert undefined or null to object") ∧
  ((remote_data (H := Sample.online) (name_or None configName) = None ∧
    require_manifest (Remote := Sample.online)
      (name_or None configName +:+ "/package.json")
    = Throw (Thrown None "Cannot convert undefined or null to object")) ∨
   Thrown None "Cannot convert undefined or null to object"
   = TypeError_read "boilerplate" ∨
   Thrown None "Cannot convert undefined or null to object"
   = Thrown None "Cannot convert undefined or null to object").
Proof.
  split; [vm_compute; reflexivity|].
  apply (fetchBoilerplateMapping_throws (H := Sample.online) None (Some "client")).
  vm_compute. reflexivity.
Defined.

(** ** Grouping and the menus *)

Lemma map_size_two {V} (m : gmap string V) :
  (1 < size m)%nat ↔ ∃ i j, i ≠ j ∧ is_Some (m !! i) ∧ is_Some (m !! j).
Proof.
  split.
  - rewrite <- length_map_to_list.
    pose proof (NoDup_fst_map_to_list m) as Hdup.
    destruct (map_to_list m) as [|[i x] [|[j y] l]] eqn:Heq; cbn; [lia..|].
    intros _. exists i, j. split_and!.
    + intros <-. apply NoDup_cons in Hdup as [Hdup _]. apply Hdup. left.
    + exists x. apply elem_of_map_to_list. rewrite Heq. left.
    + exists y. apply elem_of_map_to_list. rewrite Heq. right. left.
  - intros (i & j & Hij & Hi & Hj).
    pose proof (map_size_delete_Some i m Hi) as Hsize.
    assert (size (delete i m) ≠ 0)%nat as Hrest; [|lia].
    apply map_size_non_empty_iff. intros Hempty.
    destruct Hj as [y Hy]. rewrite <- (lookup_delete_ne m i j) in Hy by done.
    by rewrite Hempty, lookup_empty in Hy.
Qed.

Section GroupByProperties.
Context {A : Type} (prop : A → string → option string).

(** What the loop of [groupBy] keeps: an item is in the group of its
    name and in no other, and a group has an item. *)
Lemma groupBy_inv (obj : gmap string A) (key otherKey : string)
    (result : gmap string (gmap string A)) :
  groupBy prop obj key otherKey = Some result →
  (∀ g i a,
     (∃ group, result !! g = Some group ∧ group !! i = Some a) ↔
     obj !! i = Some a ∧ group_name prop key otherKey a = g) ∧
  (∀ g group, result !! g = Some group → group ≠ ∅).
Proof.
  unfold groupBy. revert result.
  apply (map_fold_weak_ind (λ r obj, ∀ result, r = Some result →
    (∀ g i a,
       (∃ group, result !! g = Some group ∧ group !! i = Some a) ↔
       obj !! i = Some a ∧ group_name prop key otherKey a = g) ∧
    (∀ g group, result !! g = Some group → group ≠ ∅))); clear obj.
  - intros result [= <-]. split.
    + intros g i a. rewrite lookup_empty. split; [|by intros [??]].
      by intros (group & Hgroup & _).
    + intros g group. by rewrite lookup_empty.
  - intros i a obj r Hfresh IH result. unfold groupBy_step at 1.
    destruct r as [result0|]; [|done]. cbn.
    case_decide as Hbad; [done|]. intros [= <-].
    destruct (IH result0 eq_refl) as [Hin Hne]. clear IH.
    set (name := group_name prop key otherKey a). split.
    + intros g j b. destruct (decide (name = g)) as [<-|Hg].
      * rewrite lookup_insert_eq. destruct (decide (i = j)) as [<-|Hj].
        -- rewrite lookup_insert_eq. split.
           ++ intros (group & [= <-] & Hb). rewrite lookup_insert_eq in Hb.
              by injection Hb as <-.
           ++ intros [[= <-] _]. eexists. split; [done|].
              by rewrite lookup_insert_eq.
        -- rewrite (lookup_insert_ne obj) by done. rewrite <- Hin. split.
           ++ intros (group & [= <-] & Hb).
              rewrite lookup_insert_ne in Hb by done.
              destruct (result0 !! name) as [group|] eqn:Hgroup;
                cbn [default] in Hb; [by eexists | by rewrite lookup_empty in Hb].
           ++ intros (group & Hgroup & Hb). eexists. split; [done|].
              rewrite lookup_insert_ne by done. by rewrite Hgroup.
      * rewrite lookup_insert_ne by done. rewrite Hin.
        destruct (decide (i = j)) as [<-|Hj].
        -- rewrite lookup_insert_eq, Hfresh. split; [by intros [??]|].
           intros [[= <-] Hname]. by destruct Hg.
        -- by rewrite lookup_insert_ne.
    + intros g group. destruct (decide (name = g)) as [<-|Hg].
      * rewrite lookup_insert_eq. intros [= <-] Hempty.
        by apply insert_non_empty in Hempty.
      * rewrite lookup_insert_ne by done. apply Hne.
Qed.

(** The names that stop [groupBy] are the only ones that do. *)
Lemma groupBy_is_Some (obj : gmap string A) (key otherKey : string) :
  (∀ i a, obj !! i = Some a →
     (group_name prop key otherKey a ∉ inherited) ∧ i ≠ "__proto__") →
  is_Some (groupBy prop obj key otherKey).
Proof.
  unfold groupBy.
  apply (map_fold_weak_ind (λ r obj,
    (∀ i a, obj !! i = Some a →
       (group_name prop key otherKey a ∉ inherited) ∧ i ≠ "__proto__") →
    is_Some r)); clear obj.
  - done.
  - intros i a obj r Hfresh IH Hok. destruct IH as [result ->].
    { intros j b Hb. apply Hok. rewrite lookup_insert_ne; [done|].
      intros <-. by rewrite Hfresh in Hb. }
    unfold groupBy_step. cbn.
    destruct (Hok i a) as [Hname Hkey]; [by rewrite lookup_insert_eq|].
    rewrite decide_False; [done|]. by intros [?|?].
Qed.

(** There are two groups exactly when two items differ in their group. *)
Lemma groupBy_size (obj : gmap string A) (key otherKey : string)
    (result : gmap string (gmap string A)) :
  groupBy prop obj key otherKey = Some result →
  (1 < size result)%nat ↔
  ∃ i j a b, obj !! i = Some a ∧ obj !! j = Some b ∧
             group_name prop key otherKey a ≠ group_name prop key otherKey b.
Proof.
  intros Hresult. destruct (groupBy_inv obj key otherKey result Hresult) as [Hin Hne].
  rewrite map_size_two. split.
  - intros (g1 & g2 & Hg & [group1 Hgroup1] & [group2 Hgroup2]).
    destruct (map_choose group1) as (i & a & Ha); [by eapply Hne|].
    destruct (map_choose group2) as (j & b & Hb); [by eapply Hne|].
    destruct (proj1 (Hin g1 i a)) as [Hi Hname1]; [by exists group1|].
    destruct (proj1 (Hin g2 j b)) as [Hj Hname2]; [by exists group2|].
    exists i, j, a, b. split_and!; [done..|congruence].
  - intros (i & j & a & b & Hi & Hj & Hname).
    destruct (proj2 (Hin _ i a) (conj Hi eq_refl)) as (group1 & Hgroup1 & _).
    destruct (proj2 (Hin _ j b) (conj Hj eq_refl)) as (group2 & Hgroup2 & _).
    by eexists _, _.
Qed.

End GroupByProperties.

(** X21: [groupBy] partitions the object: in the result, the item of
    the key [i] is found under the group [g] exactly when the object has
    it and [g] is the value of its property [key], or [otherKey] when it
    has no such property.  No item is lost, copied to a second group or
    changed. *)
Theorem groupBy_partition {A : Type} (prop : A → string → option string)
    (obj : gmap string A) (key otherKey : string)
    (result : gmap string (gmap string A)) (g i : string) (a : A) :
  groupBy prop obj key otherKey = Some result →
  (∃ group, result !! g = Some group ∧ group !! i = Some a) ↔
  obj !! i = Some a ∧ default otherKey (prop a key) = g.
Proof. intros Hresult. by apply groupBy_inv. Qed.

Lemma groupBy_partition_witness :
  groupBy bp_prop Sample_mapping "category" "other"
  = Some {[ "other" := {[ "simple" := Sample.simple ]};
            "archive" := {[ "legacy" := Sample.legacy ]} ]} ∧
  ((∃ group,
      ({[ "other" := {[ "simple" := Sample.simple ]};
          "archive" := {[ "legacy" := Sample.legacy ]} ]}
         : gmap string (gmap string boilerplate)) !! "archive" = Some group ∧
      group !! "legacy" = Some Sample.legacy) ↔
   Sample_mapping !! "legacy" = Some Sample.legacy ∧
   default "other" (bp_prop Sample.legacy "category") = "archive").
Proof.
  split; [vm_compute; reflexivity|].
  apply (groupBy_partition bp_prop Sample_mapping "category" "other").
  vm_compute. reflexivity.
Defined.

(** X22: when no item falls in a group named like a member of
    [Object.prototype] and no key is [__proto__], [groupBy] makes no
    empty group: every group of the result holds at least one item of
    the object. *)
Theorem groupBy_nonempty {A : Type} (prop : A → string → option string)
    (obj : gmap string A) (key otherKey : string) :
  (∀ i a, obj !! i = Some a →
     (default otherKey (prop a key) ∉ inherited) ∧ i ≠ "__proto__") →
  ∃ result,
    groupBy prop obj key otherKey = Some result ∧
    ∀ g group, result !! g = Some group →
               ∃ i a, group !! i = Some a ∧ obj !! i = Some a.
Proof.
  intros Hnames.
  destruct (groupBy_is_Some prop obj key otherKey Hnames) as [result Hresult].
  exists result. split; [done|]. intros g group Hgroup.
  destruct (groupBy_inv prop obj key otherKey result Hresult) as [Hin Hne].
  destruct (map_choose group) as (i & a & Ha); [by eapply Hne|].
  exists i, a. split; [done|]. apply (Hin g i a). by exists group.
Qed.

Lemma groupBy_nonempty_witness :
  ∃ result,
    groupBy bp_prop Sample_mapping "category" "other" = Some result ∧
    ∀ g group, result !! g = Some group →
               ∃ i a, group !! i = Some a ∧ Sample_mapping !! i = Some a.
Proof.
  apply (groupBy_nonempty bp_prop Sample_mapping "category" "other").
  intros i a Ha.
  assert ((i, a) ∈ map_to_list Sample_mapping) as Hin
    by by apply elem_of_map_to_list.
  vm_compute in Hin.
  repeat (apply elem_of_cons in Hin as [[= -> ->]|Hin];
          [split; [|discriminate]; vm_compute; intros Hbad;
           repeat (apply elem_of_cons in Hbad as [Hbad|Hbad]; [discriminate|]);
           by apply elem_of_nil in Hbad|]).
  by apply elem_of_nil in Hin.
Defined.

Lemma pick_elem_of {X} (n : nat) (choices : list X) :
  choices ≠ [] → ∃ x, pick n choices = Some x ∧ x ∈ choices.
Proof.
  intros Hne. unfold pick.
  destruct (lookup_lt_is_Some_2 choices (n `mod` length choices)) as [x Hx].
  - apply Nat.mod_upper_bound. by destruct choices.
  - exists x. split; [done|]. by eapply list_elem_of_lookup_2.
Qed.

Section MenuProperties.
Context `{Prompter}.

(** The first step finds a group when there is one, and asks for it
    when there are two. *)
Lemma group_menu_ok (groupMapping : gmap string (gmap string boilerplate))
    (type : option string) :
  groupMapping ≠ ∅ →
  ∃ g group,
    groupMapping !! g = Some group ∧
    group_menu groupMapping type =
      (if (1 <? size groupMapping)%nat
       then [AskGroup
               ("Please select a " +:+ type_word type +:+ "boilerplate category")
               (map_to_list groupMapping).*1]
       else [], Ok (Some group)).
Proof.
  intros Hne. unfold group_menu. cbn zeta.
  assert ((map_to_list groupMapping).*1 ≠ []) as Hnames.
  { intros Hnil. apply fmap_nil_inv in Hnil. by apply map_to_list_empty_iff in Hnil. }
  assert (∀ g, g ∈ (map_to_list groupMapping).*1 → is_Some (groupMapping !! g))
    as Hin.
  { intros g ([g' group] & -> & Hg)%list_elem_of_fmap.
    apply elem_of_map_to_list in Hg. by exists group. }
  rewrite length_fmap, length_map_to_list. destruct (1 <? _)%nat.
  - destruct (pick_elem_of (choose_group
        ("Please select a " +:+ type_word type +:+ "boilerplate category")
        (map_to_list groupMapping).*1) _ Hnames) as (answer & -> & Hanswer).
    destruct (Hin _ Hanswer) as [group Hgroup]. rewrite Hgroup.
    by exists answer, group.
  - destruct ((map_to_list groupMapping).*1) as [|name names] eqn:Heq; [done|].
    destruct (Hin name) as [group Hgroup]; [left|]. cbn. rewrite Hgroup.
    by exists name, group.
Qed.

(** The second step: the boilerplate chosen is one of the group, and
    what follows depends on its notice alone. *)
Lemma boilerplate_menu_spec (group : gmap string boilerplate)
    (type : option string) :
  group ≠ ∅ →
  ∃ key b asked,
    group !! key = Some b ∧
    boilerplate_menu (Some group) type =
      match bp_deprecate b with
      | Some (String c d) =>
          if choose_install (String c d)
          then ([AskBoilerplate asked (choice_of <$> map_to_list group);
                 AskDeprecated (String c d)], Ok (Some b))
          else ([AskBoilerplate asked (choice_of <$> map_to_list group);
                 AskDeprecated (String c d);
                 ConsoleLog ("Exit due to: " +:+ String c d)], Ok None)
      | _ => ([AskBoilerplate asked (choice_of <$> map_to_list group)],
              Ok (Some b))
      end.
Proof.
  intros Hne. unfold boilerplate_menu. cbn zeta.
  set (asked := "Please select a " +:+ type_word type +:+ "boilerplate type").
  destruct (pick_elem_of (choose_boilerplate asked (choice_of <$> map_to_list group))
              (choice_of <$> map_to_list group)) as ([name b] & -> & Hb).
  { intros Hnil. apply fmap_nil_inv in Hnil. by apply map_to_list_empty_iff in Hnil. }
  apply list_elem_of_fmap in Hb as ([key b'] & [= _ ->] & Hb).
  apply elem_of_map_to_list in Hb. exists key, b', asked. split; [done|].
  destruct (bp_deprecate b') as [[|c d]|]; [done| |done].
  by destruct (choose_install _).
Qed.

(** Both steps, from a grouping of [groupBy]. *)
Lemma menus_spec (mapping : gmap string boilerplate)
    (groupMapping : gmap string (gmap string boilerplate))
    (type : option string) :
  groupBy bp_prop mapping "category" "other" = Some groupMapping →
  mapping ≠ ∅ →
  ∃ key b asked choices,
    mapping !! key = Some b ∧
    let first :=
      (if (1 <? size groupMapping)%nat
       then [AskGroup
               ("Please select a " +:+ type_word type +:+ "boilerplate category")
               (map_to_list groupMapping).*1]
       else []) ++ [AskBoilerplate asked choices] in
    menus groupMapping type =
      match bp_deprecate b with
      | Some (String c d) =>
          if choose_install (String c d)
          then (first ++ [AskDeprecated (String c d)], Ok (Some b))
          else (first ++ [AskDeprecated (String c d);
                          ConsoleLog ("Exit due to: " +:+ String c d)], Ok None)
      | _ => (first, Ok (Some b))
      end.
Proof.
  intros Hresult Hne.
  destruct (groupBy_inv bp_prop mapping "category" "other" groupMapping Hresult)
    as [Hin Hgroups].
  destruct (group_menu_ok groupMapping type) as (g & group & Hgroup & Hfirst).
  { destruct (map_choose mapping Hne) as (i & a & Ha).
    destruct (proj2 (Hin _ i a) (conj Ha eq_refl)) as (group & Hgroup & _).
    intros Hempty. by rewrite Hempty, lookup_empty in Hgroup. }
  destruct (boilerplate_menu_spec group type) as (key & b & asked & Hb & Hsecond);
    [by eapply Hgroups|].
  exists key, b, asked, (choice_of <$> map_to_list group). split.
  { apply (Hin g key b). by exists group. }
  cbn zeta. unfold menus. rewrite Hfirst. unfold mbind, menu_bind.
  rewrite Hsecond. destruct (bp_deprecate b) as [[|c d]|]; [done| |done].
  destruct (choose_install _); by rewrite <- app_assoc.
Qed.

(** The two ways [askForBoilerplateType] goes. *)
Lemma askForBoilerplateType_spec (mapping : gmap string boilerplate)
    (type : option string) (t : list menu_event)
    (r : outcome (option boilerplate)) :
  askForBoilerplateType mapping type = Some (t, r) →
  (mapping = ∅ ∧ t = [] ∧
   r = Throw (Thrown None "Cannot convert undefined or null to object")) ∨
  (mapping ≠ ∅ ∧
   ∃ groupMapping key b asked choices,
     groupBy bp_prop mapping "category" "other" = Some groupMapping ∧
     mapping !! key = Some b ∧
     let first :=
       (if (1 <? size groupMapping)%nat
        then [AskGroup
                ("Please select a " +:+ type_word type +:+ "boilerplate category")
                (map_to_list groupMapping).*1]
        else []) ++ [AskBoilerplate asked choices] in
     (t, r) =
       match bp_deprecate b with
       | Some (String c d) =>
           if choose_install (String c d)
           then (first ++ [AskDeprecated (String c d)], Ok (Some b))
           else (first ++ [AskDeprecated (String c d);
                           ConsoleLog ("Exit due to: " +:+ String c d)], Ok None)
       | _ => (first, Ok (Some b))
       end).
Proof.
  unfold askForBoilerplateType.
  destruct (decide (mapping = ∅)) as [->|Hne].
  - unfold groupBy. rewrite map_fold_empty. unfold menus, group_menu.
    rewrite map_to_list_empty. cbn. intros [= <- <-]. by left.
  - destruct (groupBy _ _ _ _) as [groupMapping|] eqn:Hresult; [|done].
    intros [= Hmenus]. right. split; [done|].
    destruct (menus_spec mapping groupMapping type Hresult Hne)
      as (key & b & asked & choices & Hb & Hrun).
    exists groupMapping, key, b, asked, choices. split_and!; [done..|].
    cbn zeta in *. by rewrite <- Hmenus, Hrun.
Qed.

End MenuProperties.

(** X23: the boilerplate that [askForBoilerplateType] returns is an
    item of the mapping it was given, under one of its keys. *)
Theorem askForBoilerplateType_member `{Prompter}
    (mapping : gmap string boilerplate) (type : option string)
    (t : list menu_event) (b : boilerplate) :
  askForBoilerplateType mapping type = Some (t, Ok (Some b)) →
  ∃ key, mapping !! key = Some b.
Proof.
  intros [(_ & _ & [=])|(_ & gm & key & b' & asked & choices & _ & Hb & Hrun)]
    %askForBoilerplateType_spec.
  cbn zeta in Hrun. exists key.
  destruct (bp_deprecate b') as [[|c d]|]; [| destruct (choose_install _) |];
    by simplify_eq.
Qed.

Lemma askForBoilerplateType_member_witness :
  askForBoilerplateType (H := Sample_first) Sample_mapping None
  = Some ([AskGroup "Please select a boilerplate category" ["other"; "archive"];
           AskBoilerplate "Please select a boilerplate type"
             [("simple - Simple app", Sample.simple)]],
          Ok (Some Sample.simple)) ∧
  ∃ key, Sample_mapping !! key = Some Sample.simple.
Proof.
  split; [vm_compute; reflexivity|].
  apply (askForBoilerplateType_member (H := Sample_first) Sample_mapping None
           [AskGroup "Please select a boilerplate category" ["other"; "archive"];
            AskBoilerplate "Please select a boilerplate type"
              [("simple - Simple app", Sample.simple)]]).
  vm_compute. reflexivity.
Defined.

(** X24: a boilerplate with a deprecation notice is returned only
    after the notice was shown, as the last prompt, and the user chose
    to install all the same; one without a notice (or with an empty
    one) is returned without that prompt. *)
Theorem askForBoilerplateType_deprecated `{Prompter}
    (mapping : gmap string boilerplate) (type : option string)
    (t : list menu_event) (b : boilerplate) :
  askForBoilerplateType mapping type = Some (t, Ok (Some b)) →
  (∀ deprecate, bp_deprecate b = Some deprecate → deprecate ≠ "" →
     choose_install deprecate = true ∧ last t = Some (AskDeprecated deprecate)) ∧
  (bp_deprecate b = None ∨ bp_deprecate b = Some "" →
     ∀ deprecate, AskDeprecated deprecate ∉ t).
Proof.
  intros [(_ & _ & [=])|(_ & gm & key & b' & asked & choices & _ & _ & Hrun)]
    %askForBoilerplateType_spec.
  cbn zeta in Hrun.
  destruct (bp_deprecate b') as [[|c d]|] eqn:Hnotice.
  - injection Hrun as -> ->. rewrite Hnotice. split; [by intros ? [= <-]|].
    intros _ deprecate [Hin|Hin%list_elem_of_singleton]%elem_of_app; [|done].
    destruct (1 <? _)%nat; [|by apply elem_of_nil in Hin].
    by apply list_elem_of_singleton in Hin.
  - destruct (choose_install _) eqn:Hinstall; [|done].
    injection Hrun as -> ->. rewrite Hnotice. split; [|by intros [|]].
    intros ? [= <-] _. split; [done|]. apply last_snoc.
  - injection Hrun as -> ->. rewrite Hnotice. split; [done|].
    intros _ deprecate [Hin|Hin%list_elem_of_singleton]%elem_of_app; [|done].
    destruct (1 <? _)%nat; [|by apply elem_of_nil in Hin].
    by apply list_elem_of_singleton in Hin.
Qed.

Lemma askForBoilerplateType_deprecated_witness :
  askForBoilerplateType (H := Sample_insist) Sample_mapping None
  = Some ([AskGroup "Please select a boilerplate category" ["other"; "archive"];
           AskBoilerplate "Please select a boilerplate type"
             [("legacy - Old app", Sample.legacy)];
           AskDeprecated "use simple"],
          Ok (Some Sample.legacy)) ∧
  bp_deprecate Sample.legacy = Some "use simple" ∧
  choose_install (Prompter := Sample_insist) "use simple" = true.
Proof.
  split; [vm_compute; reflexivity|]. split; [reflexivity|].
  destruct (askForBoilerplateType_deprecated (H := Sample_insist)
              Sample_mapping None
              [AskGroup "Please select a boilerplate category" ["other"; "archive"];
               AskBoilerplate "Please select a boilerplate type"
                 [("legacy - Old app", Sample.legacy)];
               AskDeprecated "use simple"] Sample.legacy) as [Hshown _].
  - vm_compute. reflexivity.
  - destruct (Hshown "use simple") as [Hinstall _]; [reflexivity|discriminate|].
    exact Hinstall.
Defined.

(** X25: [askForBoilerplateType] returns nothing only when the user
    chose a deprecated boilerplate of the mapping and then declined to
    install it; the run ends with the line [Exit due to: ...] that
    gives the notice. *)
Theorem askForBoilerplateType_declined `{Prompter}
    (mapping : gmap string boilerplate) (type : option string)
    (t : list menu_event) :
  askForBoilerplateType mapping type = Some (t, Ok None) →
  ∃ key b deprecate,
    mapping !! key = Some b ∧ bp_deprecate b = Some deprecate ∧
    deprecate ≠ "" ∧ choose_install deprecate = false ∧
    last t = Some (ConsoleLog ("Exit due to: " +:+ deprecate)).
Proof.
  intros [(_ & _ & [=])|(_ & gm & key & b & asked & choices & _ & Hb & Hrun)]
    %askForBoilerplateType_spec.
  cbn zeta in Hrun.
  destruct (bp_deprecate b) as [[|c d]|] eqn:Hnotice; [done| |done].
  destruct (choose_install _) eqn:Hinstall; [done|]. injection Hrun as ->.
  exists key, b, (String c d). split_and!; [done..|].
  by rewrite (last_app_cons _ [_]).
Qed.

Lemma askForBoilerplateType_declined_witness :
  ∃ key b deprecate,
    Sample_mapping !! key = Some b ∧ bp_deprecate b = Some deprecate ∧
    deprecate ≠ "" ∧ choose_install (Prompter := Sample_second) deprecate = false ∧
    last [AskGroup "Please select a client boilerplate category" ["other"; "archive"];
          AskBoilerplate "Please select a client boilerplate type"
            [("legacy - Old app", Sample.legacy)];
          AskDeprecated "use simple"; ConsoleLog "Exit due to: use simple"]
    = Some (ConsoleLog ("Exit due to: " +:+ deprecate)).
Proof.
  apply (askForBoilerplateType_declined (H := Sample_second) Sample_mapping
           (Some "client")).
  vm_compute. reflexivity.
Defined.

(** X26: on a mapping without a category named like a member of
    [Object.prototype] and without the key [__proto__],
    [askForBoilerplateType] fails exactly when the mapping has no
    boilerplate: before any prompt, with the [TypeError] of taking the
    keys of the group that is not there.  With a boilerplate in the
    mapping every prompt has an entry to choose and the run returns. *)
Theorem askForBoilerplateType_empty `{Prompter}
    (mapping : gmap string boilerplate) (type : option string) :
  (∀ i a, mapping !! i = Some a →
     (default "other" (bp_category a) ∉ inherited) ∧ i ≠ "__proto__") →
  ∃ t r,
    askForBoilerplateType mapping type = Some (t, r) ∧
    ((∃ e, r = Throw e) ↔ mapping = ∅) ∧
    (∀ e, r = Throw e →
       t = [] ∧ e = Thrown None "Cannot convert undefined or null to object").
Proof.
  intros Hnames.
  destruct (groupBy_is_Some bp_prop mapping "category" "other" Hnames)
    as [groupMapping HgroupMapping].
  destruct (askForBoilerplateType mapping type) as [[t r]|] eqn:Hrun;
    [|unfold askForBoilerplateType in Hrun; by rewrite HgroupMapping in Hrun].
  exists t, r. split; [done|].
  apply askForBoilerplateType_spec in Hrun
    as [(-> & -> & ->)|(Hne & gm & key & b & asked & choices & _ & _ & Hrun)].
  - split; [by split; [|eexists] | by intros e [= <-]].
  - cbn zeta in Hrun.
    assert (∃ v, r = Ok v) as [v ->].
    { destruct (bp_deprecate b) as [[|c d]|]; [| destruct (choose_install _) |];
        injection Hrun as _ ->; by eexists. }
    split; [|done]. split; [by intros [e ?] | done].
Qed.

Lemma askForBoilerplateType_empty_witness :
  ∃ t r,
    askForBoilerplateType (H := Sample_first) ∅ (Some "server") = Some (t, r) ∧
    ((∃ e, r = Throw e) ↔ (∅ : gmap string boilerplate) = ∅) ∧
    (∀ e, r = Throw e →
       t = [] ∧ e = Thrown None "Cannot convert undefined or null to object").
Proof.
  apply (askForBoilerplateType_empty (H := Sample_first) ∅ (Some "server")).
  intros i a Ha. by rewrite lookup_empty in Ha.
Defined.

(** X27: on a mapping without a category named like a member of
    [Object.prototype] and without the key [__proto__], the category
    prompt is shown exactly when two boilerplates of the mapping differ
    in their category, where one without a category counts as [other];
    when all are of one category only the boilerplate prompt is
    shown. *)
Theorem askForBoilerplateType_category `{Prompter}
    (mapping : gmap string boilerplate) (type : option string) :
  (∀ i a, mapping !! i = Some a →
     (default "other" (bp_category a) ∉ inherited) ∧ i ≠ "__proto__") →
  ∃ t r,
    askForBoilerplateType mapping type = Some (t, r) ∧
    ((∃ message choices, AskGroup message choices ∈ t) ↔
     ∃ i j a b, mapping !! i = Some a ∧ mapping !! j = Some b ∧
                default "other" (bp_category a) ≠ default "other" (bp_category b)).
Proof.
  intros Hnames.
  destruct (groupBy_is_Some bp_prop mapping "category" "other" Hnames)
    as [groupMapping HgroupMapping].
  destruct (askForBoilerplateType mapping type) as [[t r]|] eqn:Hrun;
    [|unfold askForBoilerplateType in Hrun; by rewrite HgroupMapping in Hrun].
  exists t, r. split; [done|].
  apply askForBoilerplateType_spec in Hrun
    as [(-> & -> & ->)|(Hne & gm & key & b & asked & choices & Hgm & _ & Hrun)].
  - split.
    + by intros (? & ? & ?%elem_of_nil).
    + intros (i & _ & a & _ & Ha & _). by rewrite lookup_empty in Ha.
  - rewrite <- (groupBy_size bp_prop mapping "category" "other" gm Hgm : _ ↔
      ∃ i j a b, mapping !! i = Some a ∧ mapping !! j = Some b ∧
                 default "other" (bp_category a) ≠ default "other" (bp_category b)).
    cbn zeta in Hrun.
    assert (∃ rest, t = (if (1 <? size gm)%nat
                         then [AskGroup
                                 ("Please select a " +:+ type_word type +:+
                                  "boilerplate category") (map_to_list gm).*1]
                         else []) ++ rest ∧
                    ∀ message choices, AskGroup message choices ∉ rest)
      as (rest & -> & Hrest).
    { destruct (bp_deprecate b) as [[|c d]|]; [| destruct (choose_install _) |];
        injection Hrun as -> _; rewrite <- ?app_assoc; eexists; (split; [done|]);
        intros message names Hin; cbn in Hin;
        repeat (apply elem_of_cons in Hin as [Hin|Hin]; [done|]);
        by apply elem_of_nil in Hin. }
    destruct (1 <? size gm)%nat eqn:Hsize.
    + apply Nat.ltb_lt in Hsize. split; [done|]. intros _.
      eexists _, _. apply elem_of_app. left. left.
    + apply Nat.ltb_ge in Hsize. split; [|lia].
      intros (message & names & Hin). by apply Hrest in Hin.
Qed.

Lemma askForBoilerplateType_category_witness :
  ∃ t r,
    askForBoilerplateType (H := Sample_first) Sample_mapping None = Some (t, r) ∧
    ((∃ message choices, AskGroup message choices ∈ t) ↔
     ∃ i j a b, Sample_mapping !! i = Some a ∧ Sample_mapping !! j = Some b ∧
                default "other" (bp_category a) ≠ default "other" (bp_category b)).
Proof.
  apply (askForBoilerplateType_category (H := Sample_first) Sample_mapping None).
  intros i a Ha.
  assert ((i, a) ∈ map_to_list Sample_mapping) as Hin
    by by apply elem_of_map_to_list.
  vm_compute in Hin.
  repeat (apply elem_of_cons in Hin as [[= -> ->]|Hin];
          [split; [|discriminate]; vm_compute; intros Hbad;
           repeat (apply elem_of_cons in Hbad as [Hbad|Hbad]; [discriminate|]);
           by apply elem_of_nil in Hbad|]).
  by apply elem_of_nil in Hin.
Defined.
